(** * zip-random-access: the [Zip] class of [lib/index.js]

    A shallow embedding of the class and the properties of its public
    interface (constructor, [init], [getStream]).

    Conventions of the embedding.
    - JavaScript values that reach the class from its caller are a small
      inductive type; an integral number is the [Z] it is equal to, every
      other number (fraction, NaN, infinity) is [NonInt].  Numbers are
      doubles: the integers among them are those of at most 53 significant
      bits, and a sum is the double nearest to the exact sum ([JS.add]).
    - Methods are computations in a state-and-exception monad over the
      instance and the store of [PassThrough] objects; a computation also
      yields the calls it made to collaborators (the ZIP encoder, [stat]).
    - The ZIP encoder (yazl's [ZipFile]) is a collaborator outside the
      repository: it is a parameter of the development, seen through what
      the class observes of it.
    - [_buildZip] is called from nowhere and is left out. *)

From Stdlib Require Import ZArith List String Bool Lia.
Import ListNotations.

Set Warnings "-register-all".

Local Open Scope string_scope.
Local Open Scope Z_scope.
Local Open Scope list_scope.

Definition byte := Byte.byte.

(** ** JavaScript values and the [is-it-type] predicates *)

Module JS.

Inductive number : Type :=
| Int (z : Z)
| NonInt.

Inductive value : Type :=
| Undefined
| Null
| Bool (b : bool)
| Num (n : number)
| Str (s : string)
| Obj (props : list (string * value))
| Arr (elems : list value).

Fixpoint lookup (k : string) (props : list (string * value)) : value :=
  match props with
  | [] => Undefined
  | (k', v) :: rest => if String.eqb k k' then v else lookup k rest
  end.

(** Property read [o.k] for the named (non-index) properties the class
    destructures. *)
Definition get (o : value) (k : string) : value :=
  match o with
  | Obj props => lookup k props
  | _ => Undefined
  end.

Definition isArray (v : value) : bool :=
  match v with Arr _ => true | _ => false end.

(** [isObject] of is-it-type: an object that is neither null nor an
    array. *)
Definition isObject (v : value) : bool :=
  match v with Obj _ => true | _ => false end.

Definition isString (v : value) : bool :=
  match v with Str _ => true | _ => false end.

Definition isInteger (v : value) : bool :=
  match v with Num (Int _) => true | _ => false end.

Definition isPositiveInteger (v : value) : bool :=
  match v with Num (Int z) => 0 <? z | _ => false end.

Definition isPositiveIntegerOrZero (v : value) : bool :=
  match v with Num (Int z) => 0 <=? z | _ => false end.

(** [v == null] *)
Definition nullish (v : value) : bool :=
  match v with Undefined | Null => true | _ => false end.

(** The integer behind a value that passed [isInteger]. *)
Definition int_of (v : value) : Z :=
  match v with Num (Int z) => z | _ => 0 end.

Definition string_of (v : value) : string :=
  match v with Str s => s | _ => "" end.

(** A nullable number field ([null] or a number): truthiness, and its
    value in arithmetic ([null] counts as 0). *)
Definition truthy (n : option Z) : bool :=
  match n with Some z => negb (z =? 0) | None => false end.

Definition number_of (n : option Z) : Z :=
  match n with Some z => z | None => 0 end.

(** The double nearest to an integer: the integer kept to 53 significant
    bits, rounded to nearest, ties to the even significand.  Beyond the
    largest double it is Infinity, for which [2 ^ 1024] stands, above every
    double. *)
Definition round53 (z : Z) : Z :=
  let a := Z.abs z in
  let e := Z.log2 a - 52 in
  if e <=? 0 then z
  else
    let q := a / 2 ^ e in
    let r := a mod 2 ^ e in
    let half := 2 ^ (e - 1) in
    let q' := if r <? half then q
              else if half <? r then q + 1
              else if Z.even q then q else q + 1 in
    Z.sgn z * Z.min (q' * 2 ^ e) (2 ^ 1024).

(** An integer that is a double. *)
Definition representable (z : Z) : bool :=
  (round53 z =? z) && (Z.abs z <? 2 ^ 1024).

(** [a + b] on integral doubles. *)
Definition add (a b : Z) : Z := round53 (a + b).

End JS.

(** ** Errors *)

Inductive error : Type :=
| Invariant (message : string)   (* [assert] of simple-invariant failed *)
| TypeError                      (* property read or iteration on undefined *)
| EncoderThrew                   (* exception out of the ZIP encoder *)
| StatFailed.                    (* rejection of [stat] *)

Definition result (A : Type) : Type := (A + error)%type.

Definition Ok {A} (a : A) : result A := inl a.
Definition Throw {A} (e : error) : result A := inr e.

Definition rbind {A B} (r : result A) (k : A -> result B) : result B :=
  match r with
  | inl a => k a
  | inr e => inr e
  end.

Definition rassert (c : bool) (message : string) : result unit :=
  if c then Ok tt else Throw (Invariant message).

(** The assertion messages of the class. *)
Module Msg.
Definition files_array := "files must be an array".
Definition file_object := "files must be objects or strings".
Definition file_path := "file objects must have a string `path` property".
Definition file_filename := "file objects must have a string `filename` property".
Definition file_size := "file objects' `.size` property must be an integer or null".
Definition calc_failed := "Failed to calculate size".
Definition not_initialised :=
  "Must call `zip.init()` if file sizes not provided for all files".
Definition bad_offset := "`offset` must be a positive integer".
Definition bad_length := "`length` must be a positive integer greater than 0".
Definition beyond_end := "End of chunk is beyond end of file".
Definition no_header := "yazl did not write local file header".
Definition no_streams := "Failed to capture yazl streams".
End Msg.

(** ** Objects of the class *)

(** A transform stream of the encoder, seen through the one property the
    class writes on it. *)
Record Stream : Type := { byteCount : option Z }.

Module File.
Record t : Type := {
  path : string;
  filename : string;
  size : option Z;
  crc32Watcher : option Stream;
  compressedSizeCounter : option Stream
}.

Definition with_crc32Watcher (s : Stream) (f : t) : t :=
  {| path := path f; filename := filename f; size := size f;
     crc32Watcher := Some s;
     compressedSizeCounter := compressedSizeCounter f |}.

Definition with_compressedSizeCounter (s : Stream) (f : t) : t :=
  {| path := path f; filename := filename f; size := size f;
     crc32Watcher := crc32Watcher f;
     compressedSizeCounter := Some s |}.

Definition sizeKnown (f : t) : bool :=
  match size f with Some _ => true | None => false end.
End File.

Module Chunk.
Record t : Type := {
  buff : list byte;
  file : option File.t;
  offset : Z
}.
End Chunk.

(** A [PassThrough] is an object of the store; [written] is what has been
    written to it so far. *)
Record PassThrough : Type := { written : list byte }.

Module Output.
Record t : Type := {
  stream : nat;      (* the PassThrough, by its place in the store *)
  offset : Z;
  length : Z;
  pos : Z
}.
End Output.

(** ** The encoder, as the class sees it *)

(** The class gives the encoder inert fakes for its sink and its read
    stream, so what a call does is a function of the encoder's state and
    of the entry's name and declared size (content is stored, never
    compressed).

    What one call of [addReadStream] does before it returns: the buffers it
    hands to [outputStream.write], each with [outputStreamCursor] as read
    during that write, the streams it passes to [pipe] along the chain
    started at the read stream, and whether it threw. *)
Record Emission (ZipFile : Type) : Type := {
  after : ZipFile;
  writes : list (Z * list byte);
  pipes : list Stream;
  threw : bool
}.
Arguments after {ZipFile} _.
Arguments writes {ZipFile} _.
Arguments pipes {ZipFile} _.
Arguments threw {ZipFile} _.

(** What [end(callback)] does before it returns: the size it passes to the
    callback, when it calls it, and whether it threw afterwards. *)
Record Ending : Type := {
  reported : option Z;
  end_threw : bool
}.

Record Encoder : Type := {
  ZipFile : Type;
  new_ZipFile : ZipFile;
  addReadStream : ZipFile -> string -> option Z -> Emission ZipFile;
  end_ : ZipFile -> Ending
}.

(** Calls to collaborators, in the order a computation makes them. *)
Inductive Event : Type :=
| PlanEntry (filename : string) (size : option Z)
    (* [addReadStream] on the ZipFile of [_calculateZipSize] *)
| PlanEnd
    (* [end] on the ZipFile of [_calculateZipSize] *)
| StartEntry (index : nat)
    (* [addReadStream] on [this._zip] for [_files[index]] *)
| Stat (path : string).

(** ** Validation of the constructor's argument *)

(** The callback of [files.map] in the constructor; [allFileSizesKnown] is
    the flag of the enclosing scope. *)
Definition conform (file : JS.value) (allFileSizesKnown : bool)
  : result (File.t * bool) :=
  rbind (rassert (JS.isObject file) Msg.file_object) (fun _ =>
  let path := JS.get file "path" in
  let filename := JS.get file "filename" in
  let size := JS.get file "size" in
  rbind (rassert (JS.isString path) Msg.file_path) (fun _ =>
  rbind (rassert (JS.isString filename) Msg.file_filename) (fun _ =>
  rbind (if JS.nullish size
         then Ok (None, false)
         else rbind (rassert (JS.isPositiveIntegerOrZero size) Msg.file_size)
                (fun _ => Ok (Some (JS.int_of size), allFileSizesKnown)))
        (fun '(size, allFileSizesKnown) =>
  Ok ({| File.path := JS.string_of path;
         File.filename := JS.string_of filename;
         File.size := size;
         File.crc32Watcher := None;
         File.compressedSizeCounter := None |}, allFileSizesKnown))))).

Fixpoint map_conform (files : list JS.value) (allFileSizesKnown : bool)
  : result (list File.t * bool) :=
  match files with
  | [] => Ok ([], allFileSizesKnown)
  | file :: rest =>
      rbind (conform file allFileSizesKnown) (fun '(f, known) =>
      rbind (map_conform rest known) (fun '(fs, known') =>
      Ok (f :: fs, known')))
  end.

(** [assert(isArray(files))] followed by the [map]. *)
Definition validate (files : JS.value) : result (list File.t * bool) :=
  rbind (rassert (JS.isArray files) Msg.files_array) (fun _ =>
  match files with
  | JS.Arr elems => map_conform elems true
  | _ => Ok ([], true)
  end).

(** ** The class *)

Section Class.

Variable enc : Encoder.

Record Zip : Type := {
  size : option Z;
  _chunks : list Chunk.t;
  _zip : ZipFile enc;
  _outputs : list Output.t;      (* a Set of fresh objects, in insertion order *)
  _currentFileIndex : option nat;
  _nextFileIndex : nat;
  _currentSize : Z;
  _files : list File.t
}.

(** The instance and the [PassThrough] objects created so far. *)
Record World : Type := {
  this : Zip;
  streams : list PassThrough
}.

Definition set_size (v : option Z) (z : Zip) : Zip :=
  {| size := v; _chunks := _chunks z; _zip := _zip z;
     _outputs := _outputs z; _currentFileIndex := _currentFileIndex z;
     _nextFileIndex := _nextFileIndex z; _currentSize := _currentSize z;
     _files := _files z |}.

Definition set_outputs (v : list Output.t) (z : Zip) : Zip :=
  {| size := size z; _chunks := _chunks z; _zip := _zip z;
     _outputs := v; _currentFileIndex := _currentFileIndex z;
     _nextFileIndex := _nextFileIndex z; _currentSize := _currentSize z;
     _files := _files z |}.

Definition set_currentFileIndex (v : option nat) (z : Zip) : Zip :=
  {| size := size z; _chunks := _chunks z; _zip := _zip z;
     _outputs := _outputs z; _currentFileIndex := v;
     _nextFileIndex := _nextFileIndex z; _currentSize := _currentSize z;
     _files := _files z |}.

Definition set_currentSize (v : Z) (z : Zip) : Zip :=
  {| size := size z; _chunks := _chunks z; _zip := _zip z;
     _outputs := _outputs z; _currentFileIndex := _currentFileIndex z;
     _nextFileIndex := _nextFileIndex z; _currentSize := v;
     _files := _files z |}.

(** What a call of [this._zip.addReadStream] leaves behind: the encoder's
    new state, the chunks pushed by the write hook of the constructor and
    the file object as the read stream's [pipe] left it. *)
Definition set_encoded (zip : ZipFile enc) (chunks : list Chunk.t)
    (files : list File.t) (z : Zip) : Zip :=
  {| size := size z; _chunks := chunks; _zip := zip;
     _outputs := _outputs z; _currentFileIndex := _currentFileIndex z;
     _nextFileIndex := _nextFileIndex z; _currentSize := _currentSize z;
     _files := files |}.

(** *** Computations *)

Definition M (A : Type) : Type := World -> result A * World * list Event.

Definition ret {A} (a : A) : M A := fun w => (Ok a, w, []).

Definition bind {A B} (c : M A) (k : A -> M B) : M B :=
  fun w =>
    match c w with
    | (inl a, w', t) =>
        match k a w' with
        | (r, w'', t') => (r, w'', t ++ t')
        end
    | (inr e, w', t) => (inr e, w', t)
    end.

Definition throw {A} (e : error) : M A := fun w => (Throw e, w, []).

Definition emit (ev : Event) : M unit := fun w => (Ok tt, w, [ev]).

Definition get_this : M Zip := fun w => (Ok (this w), w, []).

Definition modify (f : Zip -> Zip) : M unit :=
  fun w => (Ok tt, {| this := f (this w); streams := streams w |}, []).

Definition assert (c : bool) (message : string) : M unit :=
  if c then ret tt else throw (Invariant message).

(** [new PassThrough()] *)
Definition new_PassThrough : M nat :=
  fun w => (Ok (List.length (streams w)),
            {| this := this w;
               streams := streams w ++ [ {| written := [] |} ] |}, []).

Notation "x <- c ;; k" := (bind c (fun x => k))
  (at level 61, c at next level, right associativity).
Notation "c ;; k" := (bind c (fun _ => k))
  (at level 61, right associativity).

(** *** [_calculateZipSize] *)

(** The loop over [this._files]: the sink of this ZipFile drops what is
    written and the fake stream ignores what is piped. *)
Fixpoint plan_entries (zip : ZipFile enc) (files : list File.t)
  : M (ZipFile enc) :=
  match files with
  | [] => ret zip
  | file :: rest =>
      emit (PlanEntry (File.filename file) (File.size file)) ;;
      let em := addReadStream enc zip (File.filename file) (File.size file) in
      if threw em then throw EncoderThrew else plan_entries (after em) rest
  end.

Definition _calculateZipSize : M unit :=
  z <- get_this ;;
  zip <- plan_entries (new_ZipFile enc) (_files z) ;;
  emit PlanEnd ;;
  let e := end_ enc zip in
  match reported e with
  | Some n => modify (set_size (Some n))
  | None => ret tt
  end ;;
  (if end_threw e then throw EncoderThrew else ret tt) ;;
  z <- get_this ;;
  assert (JS.truthy (size z)) Msg.calc_failed.

(** *** The constructor *)

Definition fresh (files : list File.t) : World :=
  {| this := {| size := None;
                _chunks := [];
                _zip := new_ZipFile enc;
                _outputs := [];
                _currentFileIndex := None;
                _nextFileIndex := 0%nat;
                _currentSize := 0;
                _files := files |};
     streams := [] |}.

(** The instance when construction returns, or the exception, with the
    calls made to the encoder. *)
Definition constructor (files : JS.value) : result World * list Event :=
  match validate files with
  | inr e => (Throw e, [])
  | inl (fs, allFileSizesKnown) =>
      if allFileSizesKnown : bool then
        match _calculateZipSize (fresh fs) with
        | (inl _, w, t) => (Ok w, t)
        | (inr e, _, t) => (Throw e, t)
        end
      else (Ok (fresh fs), [])
  end.

(** *** [init] *)

(** [this.files]: no statement of the class assigns a property [files]
    (the catalog is [this._files]), so the read gives undefined. *)
Definition files (z : Zip) : option (list File.t) := None.

(** The body of the loop of [init], on one file object. *)
Definition stat_file (stat : string -> option Z) (file : File.t) : M unit :=
  match File.size file with
  | None =>
      emit (Stat (File.path file)) ;;
      match stat (File.path file) with
      | Some _ => ret tt            (* [file.size = ...] on that object *)
      | None => throw StatFailed
      end
  | Some _ => ret tt
  end.

Fixpoint for_of {A} (l : list A) (body : A -> M unit) : M unit :=
  match l with
  | [] => ret tt
  | a :: rest => body a ;; for_of rest body
  end.

Definition init (stat : string -> option Z) : M unit :=
  z <- get_this ;;
  if JS.truthy (size z) then ret tt
  else
    match files z with
    | None => throw TypeError       (* [for (... of undefined)] *)
    | Some fs => for_of fs (stat_file stat) ;; _calculateZipSize
    end.

(** *** [getStream] and the producer *)

(** [pipe(stream)] of the fake read stream of [_startNextFile], at a
    given [streamIndex]. *)
Definition pipe (streamIndex : nat) (stream : Stream) (file : File.t)
  : File.t :=
  match streamIndex with
  | 0%nat => File.with_crc32Watcher stream file
  | 3%nat =>
      File.with_compressedSizeCounter
        {| byteCount := File.size file |} file
  | _ => file     (* index 1 only writes [byteCount] on the encoder's stream *)
  end.

Fixpoint pipe_chain (streamIndex : nat) (piped : list Stream)
    (file : File.t) : File.t :=
  match piped with
  | [] => file
  | stream :: rest =>
      pipe_chain (S streamIndex) rest (pipe streamIndex stream file)
  end.

(** The write hook installed by the constructor on [this._zip]. *)
Definition write_hook (w : Z * list byte) : Chunk.t :=
  {| Chunk.buff := snd w; Chunk.file := None; Chunk.offset := fst w |}.

Fixpoint replace_nth {A} (n : nat) (a : A) (l : list A) : list A :=
  match l, n with
  | [], _ => []
  | _ :: rest, O => a :: rest
  | x :: rest, S n' => x :: replace_nth n' a rest
  end.

Definition truthy_object {A} (o : option A) : bool :=
  match o with Some _ => true | None => false end.

Definition _startNextFile : M unit :=
  z <- get_this ;;
  (* if (this._files.length === this._nextFileIndex) { TODO } *)
  modify (set_currentFileIndex (Some (_nextFileIndex z))) ;;
  let index := _nextFileIndex z in
  match nth_error (_files z) index with
  | None => throw TypeError         (* [file.filename] on undefined *)
  | Some file =>
      let numChunks := List.length (_chunks z) in
      emit (StartEntry index) ;;
      let em :=
        addReadStream enc (_zip z) (File.filename file) (File.size file) in
      let file' := pipe_chain 0 (pipes em) file in
      modify (set_encoded (after em)
                (_chunks z ++ map write_hook (writes em))
                (replace_nth index file' (_files z))) ;;
      (if threw em then throw EncoderThrew else ret tt) ;;
      z' <- get_this ;;
      assert (Nat.eqb (List.length (_chunks z')) (numChunks + 1))
        Msg.no_header ;;
      assert (truthy_object (File.crc32Watcher file')
              && truthy_object (File.compressedSizeCounter file'))
        Msg.no_streams ;;
      match nth_error (_chunks z') numChunks with
      | None => throw TypeError
      | Some localFileHeaderChunk =>
          modify (set_currentSize
                    (JS.add
                       (JS.add (Chunk.offset localFileHeaderChunk)
                          (Z.of_nat
                             (List.length (Chunk.buff localFileHeaderChunk))))
                       (JS.number_of (File.size file'))))
      end
  end.

Definition _startOutput (output : Output.t) : M unit :=
  ret tt.   (* TODO *)

Definition getStream (offset length : JS.value) : M nat :=
  z <- get_this ;;
  assert (JS.truthy (size z)) Msg.not_initialised ;;
  assert (JS.isPositiveIntegerOrZero offset) Msg.bad_offset ;;
  assert (JS.isPositiveInteger length) Msg.bad_length ;;
  assert (JS.add (JS.int_of offset) (JS.int_of length)
          <=? JS.number_of (size z))
    Msg.beyond_end ;;
  outputStream <- new_PassThrough ;;
  let output := {| Output.stream := outputStream;
                   Output.offset := JS.int_of offset;
                   Output.length := JS.int_of length;
                   Output.pos := JS.int_of offset |} in
  modify (fun z => set_outputs (_outputs z ++ [output]) z) ;;
  z <- get_this ;;
  (if JS.int_of offset <? _currentSize z then _startOutput output
   else match _currentFileIndex z with
        | None => _startNextFile
        | Some _ => ret tt
        end) ;;
  ret outputStream.

End Class.

Arguments size {enc} _.
Arguments _chunks {enc} _.
Arguments _zip {enc} _.
Arguments _outputs {enc} _.
Arguments _currentFileIndex {enc} _.
Arguments _nextFileIndex {enc} _.
Arguments _currentSize {enc} _.
Arguments _files {enc} _.
Arguments this {enc} _.
Arguments streams {enc} _.

(** ** A concrete encoder

    An instance of the encoder for closed examples: the emission pattern of
    yazl for stored entries added with [addReadStream] below the ZIP64
    thresholds.  An entry whose turn has come gets its local file header
    written and its read stream piped through four transforms into the
    sink; entries added while another one is being pumped wait.  [end]
    reports the final size at once: per entry a 30-byte fixed local header,
    the name, the content and a 16-byte data descriptor, then a central
    directory record of 46 bytes plus the name, and a 22-byte end record. *)

Module Stored.

Record state : Type := {
  entries : list (string * option Z);
  outputStreamCursor : Z;
  pumping : bool
}.

Definition new_ZipFile : state :=
  {| entries := []; outputStreamCursor := 0; pumping := false |}.

Definition x00 : byte := Byte.x00.

Definition localFileHeader (name : string) : list byte :=
  [Byte.x50; Byte.x4b; Byte.x03; Byte.x04]
    ++ repeat x00 26 ++ list_byte_of_string name.

Definition transforms : list Stream :=
  repeat {| byteCount := None |} 5.

Definition addReadStream (z : state) (name : string) (size : option Z)
  : Emission state :=
  if String.eqb name "" then
    {| after := z; writes := []; pipes := []; threw := true |}
  else if pumping z then
    {| after := {| entries := entries z ++ [(name, size)];
                   outputStreamCursor := outputStreamCursor z;
                   pumping := true |};
       writes := []; pipes := []; threw := false |}
  else
    let header := localFileHeader name in
    {| after := {| entries := entries z ++ [(name, size)];
                   outputStreamCursor :=
                     outputStreamCursor z + Z.of_nat (List.length header);
                   pumping := true |};
       writes := [(outputStreamCursor z, header)];
       pipes := transforms;
       threw := false |}.

Fixpoint finalSize (es : list (string * option Z)) : option Z :=
  match es with
  | [] => Some 22
  | (name, size) :: rest =>
      match size, finalSize rest with
      | Some n, Some total =>
          let len := Z.of_nat (String.length name) in
          Some (30 + len + n + 16 + (46 + len) + total)
      | _, _ => None
      end
  end.

Definition end_ (z : state) : Ending :=
  {| reported := match finalSize (entries z) with
                 | Some n => Some n
                 | None => Some (-1)
                 end;
     (* with no entry left to pump the sink's [end] is called, which the
        sinks of the class do not have *)
     end_threw := negb (pumping z) |}.

Definition encoder : Encoder :=
  Build_Encoder state new_ZipFile addReadStream end_.

End Stored.

(** ** The public interface as a transition system *)

(** A call on a constructed instance.  [stat] stands for the file system at
    the time of the call. *)
Inductive Call : Type :=
| Init (stat : string -> option Z)
| GetStream (offset length : JS.value).

(** The instance and store after a call, returned or thrown, with the
    collaborator calls it made. *)
Definition call (enc : Encoder) (c : Call) (w : World enc)
  : World enc * list Event :=
  match c with
  | Init stat => let '(_, w', t) := init enc stat w in (w', t)
  | GetStream offset length =>
      let '(_, w', t) := getStream enc offset length w in (w', t)
  end.

Fixpoint run (enc : Encoder) (calls : list Call) (w : World enc)
  : World enc :=
  match calls with
  | [] => w
  | c :: rest => run enc rest (fst (call enc c w))
  end.

(** [reaches enc w t]: [w] is the state of an instance after construction
    and some calls, and [t] the collaborator calls made so far. *)
Inductive reaches (enc : Encoder) : World enc -> list Event -> Prop :=
| reaches_new files w t :
    constructor enc files = (Ok w, t) -> reaches enc w t
| reaches_call c w t :
    reaches enc w t ->
    reaches enc (fst (call enc c w)) (t ++ snd (call enc c w)).

(** The entries handed to the producer's encoder, in the order of the
    calls. *)
Fixpoint started (t : list Event) : list nat :=
  match t with
  | [] => []
  | StartEntry i :: rest => i :: started rest
  | _ :: rest => started rest
  end.

(** ** Vocabulary of the properties *)

Definition descriptor (path filename : string) (size : JS.value) : JS.value :=
  JS.Obj [("path", JS.Str path); ("filename", JS.Str filename); ("size", size)].

(** A descriptor the constructor's checks let through: an object whose
    [path] and [filename] are strings and whose [size] is undefined, null
    or a non-negative integer. *)
Definition well_formed (d : JS.value) : bool :=
  JS.isObject d
  && JS.isString (JS.get d "path")
  && JS.isString (JS.get d "filename")
  && (JS.nullish (JS.get d "size")
      || JS.isPositiveIntegerOrZero (JS.get d "size")).

Definition declares_size (d : JS.value) : bool :=
  negb (JS.nullish (JS.get d "size")).

(** The catalog entry made from a well-formed descriptor. *)
Definition entry_of (d : JS.value) : File.t :=
  {| File.path := JS.string_of (JS.get d "path");
     File.filename := JS.string_of (JS.get d "filename");
     File.size := if JS.nullish (JS.get d "size") then None
                  else Some (JS.int_of (JS.get d "size"));
     File.crc32Watcher := None;
     File.compressedSizeCounter := None |}.

(** The message of the first check a descriptor fails. *)
Definition complaint (d : JS.value) : string :=
  if negb (JS.isObject d) then Msg.file_object
  else if negb (JS.isString (JS.get d "path")) then Msg.file_path
  else if negb (JS.isString (JS.get d "filename")) then Msg.file_filename
  else Msg.file_size.

Fixpoint first_complaint (ds : list JS.value) : string :=
  match ds with
  | [] => Msg.files_array
  | d :: rest => if well_formed d then first_complaint rest else complaint d
  end.

Definition one_of (l : list string) (m : string) : bool :=
  existsb (String.eqb m) l.

(** The spec's error classes, by the assertions that raise them. *)
Definition ValidationError (e : error) : bool :=
  match e with
  | Invariant m =>
      one_of [Msg.files_array; Msg.file_object; Msg.file_path;
              Msg.file_filename; Msg.file_size] m
  | _ => false
  end.

Definition InvalidRangeError (e : error) : bool :=
  match e with
  | Invariant m => one_of [Msg.bad_offset; Msg.bad_length; Msg.beyond_end] m
  | _ => false
  end.

Definition NotPlannedError (e : error) : bool :=
  match e with
  | Invariant m => one_of [Msg.not_initialised] m
  | _ => false
  end.

Definition LayoutComputationError (e : error) : bool :=
  match e with
  | Invariant m => one_of [Msg.no_header] m
  | _ => false
  end.

(** The first precondition of [getStream] that fails, if one does. *)
Definition rejection (enc : Encoder) (z : Zip enc) (offset length : JS.value)
  : option string :=
  if negb (JS.truthy (size z)) then Some Msg.not_initialised
  else if negb (JS.isPositiveIntegerOrZero offset) then Some Msg.bad_offset
  else if negb (JS.isPositiveInteger length) then Some Msg.bad_length
  else if negb (JS.add (JS.int_of offset) (JS.int_of length)
                <=? JS.number_of (size z))
  then Some Msg.beyond_end
  else None.

(** The file object as the constructor made it. *)
Definition pristine (f : File.t) : File.t :=
  {| File.path := File.path f; File.filename := File.filename f;
     File.size := File.size f;
     File.crc32Watcher := None; File.compressedSizeCounter := None |}.

(** The size-calculation pass over this catalog has completed and left
    [sz] in [this.size]. *)
Definition planned (enc : Encoder) (catalog : list File.t) (sz : option Z)
  : Prop :=
  exists w t,
    _calculateZipSize enc (fresh enc (map pristine catalog)) = (Ok tt, w, t)
    /\ size (this w) = sz.

(** The call the size-calculation pass makes for a catalog entry. *)
Definition plan_event (f : File.t) : Event :=
  PlanEntry (File.filename f) (File.size f).

Definition allSizesKnown (catalog : list File.t) : bool :=
  forallb File.sizeKnown catalog.

(** The bytes [[offset, offset+length)] of an archive. *)
Definition slice (archive : list byte) (offset length : Z) : list byte :=
  firstn (Z.to_nat length) (skipn (Z.to_nat offset) archive).

(** No stream of the store has received a byte. *)
Definition silent (enc : Encoder) (w : World enc) : Prop :=
  Forall (fun p => written p = []) (streams w).

(** The state right after [getStream] has created its stream and added
    its output to [this._outputs]. *)
Definition output_for (enc : Encoder) (w : World enc)
    (offset length : JS.value) : Output.t :=
  {| Output.stream := List.length (streams w);
     Output.offset := JS.int_of offset;
     Output.length := JS.int_of length;
     Output.pos := JS.int_of offset |}.

Definition registered (enc : Encoder) (w : World enc)
    (offset length : JS.value) : World enc :=
  {| this := set_outputs enc
               (_outputs (this w) ++ [output_for enc w offset length])
               (this w);
     streams := streams w ++ [ {| written := [] |} ] |}.

(** What has been delivered to the stream [s] of the store. *)
Definition delivered (enc : Encoder) (w : World enc) (s : nat) : list byte :=
  match nth_error (streams w) s with
  | Some p => written p
  | None => []
  end.

(** ** Sample instances *)

Module Sample.

(** Two stored entries of 5 and 3 bytes. *)
Definition files : JS.value :=
  JS.Arr [descriptor "a" "a.txt" (JS.Num (JS.Int 5));
          descriptor "b" "b.txt" (JS.Num (JS.Int 3))].

Definition catalog : list File.t :=
  [ {| File.path := "a"; File.filename := "a.txt"; File.size := Some 5;
       File.crc32Watcher := None; File.compressedSizeCounter := None |};
    {| File.path := "b"; File.filename := "b.txt"; File.size := Some 3;
       File.crc32Watcher := None; File.compressedSizeCounter := None |} ].

(** The instance [new Zip(files)] with the concrete encoder. *)
Definition zip : World Stored.encoder :=
  {| this := set_size Stored.encoder (Some 234)
               (this (fresh Stored.encoder catalog));
     streams := [] |}.

Definition planning : list Event :=
  [PlanEntry "a.txt" (Some 5); PlanEntry "b.txt" (Some 3); PlanEnd].

(** One entry whose size is left out. *)
Definition unsized : JS.value := JS.Arr [descriptor "a" "a.txt" JS.Undefined].

Definition unresolved : World Stored.encoder :=
  fresh Stored.encoder
    [ {| File.path := "a"; File.filename := "a.txt"; File.size := None;
         File.crc32Watcher := None; File.compressedSizeCounter := None |} ].

(** An instance whose encoder is already pumping an entry, so that the
    next [addReadStream] writes nothing. *)
Definition stalled : World Stored.encoder :=
  {| this :=
       {| size := Some 234;
          _chunks := [];
          _zip := ({| Stored.entries := [("x.txt", Some 1)];
                     Stored.outputStreamCursor := 35;
                     Stored.pumping := true |}
                   : ZipFile Stored.encoder);
          _outputs := [];
          _currentFileIndex := None;
          _nextFileIndex := 0%nat;
          _currentSize := 0;
          _files := catalog |};
     streams := [] |}.

Definition zero : JS.value := descriptor "e" "empty.txt" (JS.Num (JS.Int 0)).

End Sample.

(** ** Further vocabulary *)

(** The encoder's state after the catalog entries were added to it one
    after another, as the loop of [_calculateZipSize] does; [None] when the
    encoder throws on one of them. *)
Fixpoint dry_run (enc : Encoder) (zip : ZipFile enc) (files : list File.t)
  : option (ZipFile enc) :=
  match files with
  | [] => Some zip
  | file :: rest =>
      let em := addReadStream enc zip (File.filename file) (File.size file) in
      if threw em then None else dry_run enc (after em) rest
  end.

(** An output as [getStream] makes it for a request that passed its checks
    on an archive of the given size. *)
Definition within (sz : option Z) (o : Output.t) : Prop :=
  0 <= Output.offset o
  /\ 0 < Output.length o
  /\ JS.add (Output.offset o) (Output.length o) <= JS.number_of sz
  /\ Output.pos o = Output.offset o.

(** The instance with the producer marked as started on the entry at
    [_nextFileIndex]. *)
Definition marked (enc : Encoder) (w : World enc) : World enc :=
  {| this := set_currentFileIndex enc (Some (_nextFileIndex (this w))) (this w);
     streams := streams w |}.

(** ** Further concrete encoders *)

(** An encoder whose [end] returns before the final size is known, so that
    the callback is not called in time. *)
Module Deferred.

Definition end_ (z : Stored.state) : Ending :=
  {| reported := None; end_threw := false |}.

Definition encoder : Encoder :=
  Build_Encoder Stored.state Stored.new_ZipFile Stored.addReadStream end_.

End Deferred.

(** An encoder that writes the local file header but reads its input
    without piping it anywhere. *)
Module Unpiped.

Definition addReadStream (z : Stored.state) (name : string) (size : option Z)
  : Emission Stored.state :=
  let em := Stored.addReadStream z name size in
  {| after := after em; writes := writes em; pipes := []; threw := threw em |}.

Definition encoder : Encoder :=
  Build_Encoder Stored.state Stored.new_ZipFile addReadStream Stored.end_.

End Unpiped.

(** ** Further sample instances *)

Module More.

(** The sample archive after the request for its first byte. *)
Definition serving : World Stored.encoder :=
  fst (call Stored.encoder (GetStream (JS.Num (JS.Int 0)) (JS.Num (JS.Int 1)))
         Sample.zip).

(** An instance with a size and no entry. *)
Definition hollow : World Stored.encoder :=
  {| this := set_size Stored.encoder (Some 22)
               (this (fresh Stored.encoder []));
     streams := [] |}.

(** The sample catalog on the encoder that pipes nothing. *)
Definition unpiped : World Unpiped.encoder :=
  {| this := set_size Unpiped.encoder (Some 234)
               (this (fresh Unpiped.encoder Sample.catalog));
     streams := [] |}.

(** The instance [new Zip([{path: 'big', filename: 'big.bin',
    size: 2 ** 54}])]: with the ZIP64 records of yazl the archive has
    [2 ^ 54 + 240] bytes. *)
Definition huge : World Stored.encoder :=
  {| this := set_size Stored.encoder (Some (2 ^ 54 + 240))
               (this (fresh Stored.encoder
                        [ {| File.path := "big"; File.filename := "big.bin";
                             File.size := Some (2 ^ 54);
                             File.crc32Watcher := None;
                             File.compressedSizeCounter := None |} ]));
     streams := [] |}.

(** Descriptors of which the second has no archive name and the third no
    path. *)
Definition flawed : list JS.value :=
  [ descriptor "a" "a.txt" (JS.Num (JS.Int 5));
    JS.Obj [("path", JS.Str "b"); ("size", JS.Num (JS.Int (-3)))];
    JS.Obj [("filename", JS.Str "c.txt")] ].

(** Descriptors of which the second has an empty archive name, which the
    concrete encoder refuses. *)
Definition nameless : list JS.value :=
  [ descriptor "a" "a.txt" (JS.Num (JS.Int 5));
    descriptor "b" "" (JS.Num (JS.Int 3));
    descriptor "c" "c.txt" (JS.Num (JS.Int 1)) ].

End More.

(** * Properties *)

(** ** Sums of doubles *)

(** Below [2 ^ 53] every integer is a double. *)
Lemma round53_small (z : Z) : Z.abs z < 2 ^ 53 -> JS.round53 z = z.
Proof.
  intros H. unfold JS.round53.
  assert (He : Z.log2 (Z.abs z) - 52 <= 0).
  { destruct (Z.eq_dec (Z.abs z) 0) as [ -> | Hz ]; [ simpl; lia | ].
    assert (Z.log2 (Z.abs z) < 53) by (apply Z.log2_lt_pow2; lia).
    lia. }
  apply Z.leb_le in He. now rewrite He.
Qed.

(** From [2 ^ 53] on, rounding stays at or above [2 ^ 53]. *)
Lemma round53_large (z : Z) : 2 ^ 53 <= z -> 2 ^ 53 <= JS.round53 z.
Proof.
  intros H. unfold JS.round53.
  assert (Hpos : 0 < z) by (assert (0 < 2 ^ 53) by reflexivity; lia).
  rewrite (Z.abs_eq z) by lia. rewrite (Z.sgn_pos z) by lia.
  destruct (Z.leb_spec (Z.log2 z - 52) 0) as [ _ | He ]; [ exact H | ].
  set (e := Z.log2 z - 52) in *.
  assert (Hlog : 2 ^ Z.log2 z <= z) by (apply Z.log2_spec; lia).
  assert (Hsplit : 2 ^ Z.log2 z = 2 ^ 52 * 2 ^ e).
  { unfold e. rewrite <- Z.pow_add_r by lia. f_equal. lia. }
  assert (He2 : 2 <= 2 ^ e).
  { change 2 with (2 ^ 1) at 1. apply Z.pow_le_mono_r; lia. }
  assert (Hq : 2 ^ 52 <= z / 2 ^ e).
  { apply Z.div_le_lower_bound; lia. }
  set (q := z / 2 ^ e) in *.
  assert (Hq' : q <= (if z mod 2 ^ e <? 2 ^ (e - 1) then q
                      else if 2 ^ (e - 1) <? z mod 2 ^ e then q + 1
                      else if Z.even q then q else q + 1)).
  { destruct (_ <? _); [ lia | ].
    destruct (_ <? _); [ lia | ]. destruct (Z.even q); lia. }
  set (q' := if z mod 2 ^ e <? 2 ^ (e - 1) then q
             else if 2 ^ (e - 1) <? z mod 2 ^ e then q + 1
             else if Z.even q then q else q + 1) in *.
  rewrite Z.mul_1_l. apply Z.min_glb.
  - assert (2 ^ 52 * 2 <= q' * 2 ^ e) by nia.
    change (2 ^ 53) with (2 ^ 52 * 2). lia.
  - apply Z.pow_le_mono_r; lia.
Qed.

(** For an archive below [2 ^ 53] bytes the bound check on the rounded sum
    is the check on the exact sum. *)
Lemma add_within_exact (o l sz : Z) :
  0 <= o -> 0 < l -> sz < 2 ^ 53 ->
  (JS.add o l <= sz <-> o + l <= sz).
Proof.
  intros Ho Hl Hsz. unfold JS.add.
  destruct (Z.lt_ge_cases (o + l) (2 ^ 53)) as [ Hs | Hs ].
  - rewrite round53_small by (rewrite Z.abs_eq; lia). reflexivity.
  - pose proof (round53_large (o + l) Hs). split; lia.
Qed.

(** ** Validation *)

Lemma conform_eq (d : JS.value) (k : bool) :
  conform d k =
  if well_formed d then Ok (entry_of d, k && declares_size d)
  else Throw (Invariant (complaint d)).
Proof.
  unfold conform, well_formed, entry_of, declares_size, complaint.
  destruct (JS.isObject d); simpl; [ | reflexivity ].
  destruct (JS.get d "path") as [ | | | | p | | ]; simpl; try reflexivity.
  destruct (JS.get d "filename") as [ | | | | n | | ]; simpl; try reflexivity.
  destruct (JS.get d "size") as [ | | b | [ z | ] | s | ps | es ]; simpl;
    try reflexivity.
  - now rewrite andb_false_r.
  - now rewrite andb_false_r.
  - destruct (0 <=? z); simpl; [ now rewrite andb_true_r | reflexivity ].
Qed.

Lemma map_conform_eq (ds : list JS.value) (k : bool) :
  map_conform ds k =
  if forallb well_formed ds
  then Ok (map entry_of ds, k && forallb declares_size ds)
  else Throw (Invariant (first_complaint ds)).
Proof.
  revert k; induction ds as [ | d ds IH ]; intro k; simpl.
  - now rewrite andb_true_r.
  - rewrite conform_eq. destruct (well_formed d); simpl; [ | reflexivity ].
    rewrite IH. destruct (forallb well_formed ds); simpl; [ | reflexivity ].
    now rewrite andb_assoc.
Qed.

Lemma complaint_is_validation (d : JS.value) :
  ValidationError (Invariant (complaint d)) = true.
Proof.
  unfold complaint.
  destruct (JS.isObject d), (JS.isString (JS.get d "path")),
    (JS.isString (JS.get d "filename")); reflexivity.
Qed.

Lemma first_complaint_is_validation (ds : list JS.value) :
  ValidationError (Invariant (first_complaint ds)) = true.
Proof.
  induction ds as [ | d ds IH ]; simpl first_complaint.
  - reflexivity.
  - destruct (well_formed d); [ exact IH | apply complaint_is_validation ].
Qed.

Lemma pristine_entry_of (d : JS.value) : pristine (entry_of d) = entry_of d.
Proof. reflexivity. Qed.

Lemma map_pristine_entry_of (ds : list JS.value) :
  map pristine (map entry_of ds) = map entry_of ds.
Proof.
  induction ds as [ | d ds IH ]; simpl; [ reflexivity | now rewrite IH ].
Qed.

Lemma sizeKnown_entry_of (d : JS.value) :
  File.sizeKnown (entry_of d) = declares_size d.
Proof.
  unfold File.sizeKnown, entry_of, declares_size; simpl.
  now destruct (JS.nullish (JS.get d "size")).
Qed.

Lemma allSizesKnown_entries (ds : list JS.value) :
  allSizesKnown (map entry_of ds) = forallb declares_size ds.
Proof.
  unfold allSizesKnown.
  induction ds as [ | d ds IH ]; simpl; [ reflexivity | ].
  now rewrite sizeKnown_entry_of, IH.
Qed.

(** ** The size-calculation pass *)

Ltac step_monad :=
  cbv beta iota zeta delta
    [bind ret throw emit get_this modify assert new_PassThrough Ok Throw].

Section Facts.

Variable enc : Encoder.

Lemma started_app (a b : list Event) :
  started (a ++ b) = started a ++ started b.
Proof.
  induction a as [ | [ n s | | i | p ] a IH ]; simpl; try exact IH.
  - reflexivity.
  - now rewrite IH.
Qed.

Lemma plan_entries_spec (files : list File.t) :
  forall (zip : ZipFile enc) (w : World enc),
    let '(r, w', t) := plan_entries enc zip files w in
    w' = w
    /\ started t = []
    /\ (forall zip', r = inl zip' -> t = map plan_event files).
Proof.
  induction files as [ | f files IH ]; intros zip w; simpl.
  - step_monad. split; [ | split ]; reflexivity.
  - step_monad.
    destruct (threw (addReadStream enc zip (File.filename f) (File.size f))).
    + split; [ | split ]; [ reflexivity | reflexivity | discriminate ].
    + specialize (IH (after (addReadStream enc zip (File.filename f)
                               (File.size f))) w).
      destruct (plan_entries enc _ files w) as [[r w'] t].
      destruct IH as (Hw & Hs & Ht).
      split; [ | split ]; [ exact Hw | exact Hs | ].
      intros zip' Hr. simpl. unfold plan_event at 1. f_equal.
      now apply Ht with zip'.
Qed.

(** The pass only ever changes [this.size]. *)
Lemma calculateZipSize_spec (w : World enc) :
  let '(r, w', t) := _calculateZipSize enc w in
  streams w' = streams w
  /\ this w' = set_size enc (size (this w')) (this w)
  /\ started t = []
  /\ (r = inl tt ->
      JS.truthy (size (this w')) = true
      /\ t = map plan_event (_files (this w)) ++ [PlanEnd]).
Proof.
  unfold _calculateZipSize. step_monad.
  pose proof (plan_entries_spec (_files (this w)) (new_ZipFile enc) w) as P.
  destruct (plan_entries enc (new_ZipFile enc) (_files (this w)) w)
    as [[[zip | e] w1] t1]; destruct P as (-> & Hs & Ht).
  - specialize (Ht zip eq_refl). subst t1.
    destruct w as [z st]; simpl in *.
    destruct z as [sz ch zp ou cf nf cs fs]; simpl in *.
    destruct (reported (end_ enc zip)) as [n | ];
      destruct (end_threw (end_ enc zip)); simpl;
      [ | destruct (n =? 0) eqn:Hn | | destruct (JS.truthy sz) eqn:Hsz ];
      simpl; rewrite ?app_nil_r, ?started_app, ?Hs;
      (split; [ | split; [ | split ] ];
       [ reflexivity | reflexivity | reflexivity | ]);
      try discriminate; intros _; split; auto.
    now rewrite Hn.
  - destruct w as [z st]; simpl in *.
    destruct z as [sz ch zp ou cf nf cs fs]; simpl in *.
    split; [ | split; [ | split ] ];
      [ reflexivity | reflexivity | exact Hs | discriminate ].
Qed.

Lemma constructor_spec (files : JS.value) (w : World enc) (t : list Event) :
  constructor enc files = (Ok w, t) ->
  exists ds,
    files = JS.Arr ds
    /\ forallb well_formed ds = true
    /\ streams w = []
    /\ this w = set_size enc (size (this w)) (this (fresh enc (map entry_of ds)))
    /\ started t = []
    /\ if forallb declares_size ds
       then JS.truthy (size (this w)) = true
            /\ planned enc (map entry_of ds) (size (this w))
            /\ t = map plan_event (map entry_of ds) ++ [PlanEnd]
       else size (this w) = None /\ t = [].
Proof.
  unfold constructor, validate.
  destruct files as [ | | b | n | s | ps | ds ]; simpl; try discriminate.
  rewrite map_conform_eq.
  destruct (forallb well_formed ds) eqn:Hwf; simpl; [ | discriminate ].
  destruct (forallb declares_size ds) eqn:Hds.
  - pose proof (calculateZipSize_spec (fresh enc (map entry_of ds))) as P.
    destruct (_calculateZipSize enc (fresh enc (map entry_of ds)))
      as [[[[] | e] w'] t'] eqn:E; [ | discriminate ].
    intros H; injection H as <- <-.
    destruct P as (Hst & Hth & Hs & Hok).
    destruct (Hok eq_refl) as (Htr & Ht).
    exists ds. rewrite Hds.
    split; [ reflexivity | split; [ exact Hwf | ] ].
    split; [ exact Hst | split; [ exact Hth | split; [ exact Hs | ] ] ].
    split; [ exact Htr | split; [ | exact Ht ] ].
    exists w', t'. rewrite map_pristine_entry_of. split; [ exact E | reflexivity ].
  - intros H; injection H as <- <-.
    exists ds. rewrite Hds. repeat split; auto.
Qed.

(** ** [init] *)

Lemma init_eq (stat : string -> option Z) (w : World enc) :
  init enc stat w =
  if JS.truthy (size (this w)) then (Ok tt, w, [])
  else (Throw TypeError, w, []).
Proof.
  unfold init, files. step_monad.
  destruct (JS.truthy (size (this w))); reflexivity.
Qed.

(** ** The producer *)

Lemma pristine_pipe (i : nat) (s : Stream) (f : File.t) :
  pristine (pipe i s f) = pristine f.
Proof. destruct i as [ | [ | [ | [ | i ] ] ] ]; reflexivity. Qed.

Lemma pristine_pipe_chain (piped : list Stream) :
  forall (i : nat) (f : File.t), pristine (pipe_chain i piped f) = pristine f.
Proof.
  induction piped as [ | s piped IH ]; intros i f; simpl.
  - reflexivity.
  - now rewrite IH, pristine_pipe.
Qed.

Lemma map_pristine_replace_nth (l : list File.t) :
  forall (i : nat) (f f' : File.t),
    nth_error l i = Some f ->
    pristine f' = pristine f ->
    map pristine (replace_nth i f' l) = map pristine l.
Proof.
  induction l as [ | x l IH ]; intros [ | i ] f f' Hn Hp; simpl in *;
    try discriminate.
  - injection Hn as ->. now rewrite Hp.
  - f_equal. now apply IH with f.
Qed.

(** What [_startNextFile] may change: the encoder, the chunks, the
    captured streams of the file objects, [_currentFileIndex] and
    [_currentSize]; and it hands at most one entry to the encoder, the one
    at [_nextFileIndex]. *)
Lemma startNextFile_spec (w : World enc) :
  let '(r, w', t) := _startNextFile enc w in
  streams w' = streams w
  /\ size (this w') = size (this w)
  /\ _outputs (this w') = _outputs (this w)
  /\ _nextFileIndex (this w') = _nextFileIndex (this w)
  /\ _currentFileIndex (this w') = Some (_nextFileIndex (this w))
  /\ map pristine (_files (this w')) = map pristine (_files (this w))
  /\ (t = [] \/ t = [StartEntry (_nextFileIndex (this w))]).
Proof.
  unfold _startNextFile. step_monad.
  destruct w as [z st]. destruct z as [sz ch zp ou cf nf cs fs]. simpl.
  destruct (nth_error fs nf) as [ file | ] eqn:Hfile; simpl.
  2: { repeat split; auto. }
  assert (Hp : map pristine
                 (replace_nth nf
                    (pipe_chain 0
                       (pipes (addReadStream enc zp (File.filename file)
                                 (File.size file))) file) fs)
               = map pristine fs).
  { apply map_pristine_replace_nth with file;
      [ exact Hfile | apply pristine_pipe_chain ]. }
  destruct (threw (addReadStream enc zp (File.filename file)
                     (File.size file))); simpl.
  { repeat split; auto. }
  destruct (Nat.eqb _ _); simpl.
  2: { repeat split; auto. }
  destruct (truthy_object _ && truthy_object _)%bool; simpl.
  2: { repeat split; auto. }
  destruct (nth_error _ (List.length ch)); simpl; repeat split; auto.
Qed.

(** ** [getStream] *)

Lemma getStream_eq (offset length : JS.value) (w : World enc) :
  getStream enc offset length w =
  match rejection enc (this w) offset length with
  | Some m => (Throw (Invariant m), w, [])
  | None =>
      let s := List.length (streams w) in
      let w1 := registered enc w offset length in
      if JS.int_of offset <? _currentSize (this w) then (Ok s, w1, [])
      else match _currentFileIndex (this w) with
           | Some _ => (Ok s, w1, [])
           | None =>
               match _startNextFile enc w1 with
               | (inl _, w2, t) => (Ok s, w2, t)
               | (inr e, w2, t) => (Throw e, w2, t)
               end
           end
  end.
Proof.
  unfold getStream, rejection, _startOutput. step_monad.
  destruct (JS.truthy (size (this w))); simpl; [ | reflexivity ].
  destruct (JS.isPositiveIntegerOrZero offset); simpl; [ | reflexivity ].
  destruct (JS.isPositiveInteger length); simpl; [ | reflexivity ].
  destruct (JS.add (JS.int_of offset) (JS.int_of length)
            <=? JS.number_of (size (this w)));
    simpl; [ | reflexivity ].
  fold (output_for enc w offset length).
  fold (registered enc w offset length).
  destruct (JS.int_of offset <? _currentSize (this w)); simpl;
    [ reflexivity | ].
  destruct (_currentFileIndex (this w)); simpl; [ reflexivity | ].
  destruct (_startNextFile enc (registered enc w offset length))
    as [[[[] | e] w2] t]; simpl; rewrite ?app_nil_r; reflexivity.
Qed.

(** ** One call of the public interface *)

Lemma call_spec (c : Call) (w : World enc) :
  let w' := fst (call enc c w) in
  let t := snd (call enc c w) in
  size (this w') = size (this w)
  /\ map pristine (_files (this w')) = map pristine (_files (this w))
  /\ _nextFileIndex (this w') = _nextFileIndex (this w)
  /\ (streams w' = streams w
      \/ streams w' = streams w ++ [ {| written := [] |} ])
  /\ ((_currentFileIndex (this w') = _currentFileIndex (this w) /\ t = [])
      \/ (_currentFileIndex (this w) = None
          /\ _currentFileIndex (this w') = Some (_nextFileIndex (this w))
          /\ (t = [] \/ t = [StartEntry (_nextFileIndex (this w))]))).
Proof.
  destruct c as [ stat | offset length ]; simpl.
  - rewrite init_eq.
    destruct (JS.truthy (size (this w))); simpl; repeat split; auto.
  - rewrite getStream_eq.
    destruct (rejection enc (this w) offset length) as [ m | ]; simpl.
    { repeat split; auto. }
    destruct (JS.int_of offset <? _currentSize (this w)); simpl.
    { repeat split; auto. }
    destruct (_currentFileIndex (this w)) as [ i | ] eqn:Hc; simpl.
    { repeat split; auto. }
    pose proof (startNextFile_spec (registered enc w offset length)) as P.
    destruct (_startNextFile enc (registered enc w offset length))
      as [[[[] | e] w2] t]; simpl in *;
      destruct P as (Hst & Hsz & _ & Hn & Hcur & Hf & Ht);
      (split; [ exact Hsz | ]); (split; [ exact Hf | ]);
      (split; [ exact Hn | ]); (split; [ right; exact Hst | ]);
      right; auto.
Qed.

Lemma startNextFile_errors (w : World enc) :
  match fst (fst (_startNextFile enc w)) with
  | inr e => (NotPlannedError e || InvalidRangeError e)%bool = false
  | inl _ => True
  end.
Proof.
  unfold _startNextFile. step_monad.
  destruct (nth_error (_files (this w)) (_nextFileIndex (this w)))
    as [ file | ]; simpl; [ | reflexivity ].
  destruct (threw _); simpl; [ reflexivity | ].
  destruct (Nat.eqb _ _); simpl; [ | reflexivity ].
  destruct (truthy_object _ && truthy_object _)%bool; simpl;
    [ | reflexivity ].
  destruct (nth_error _ _); simpl; [ exact I | reflexivity ].
Qed.

(** ** Nothing is ever written to a stream *)

Lemma silent_call (c : Call) (w : World enc) :
  silent enc w -> silent enc (fst (call enc c w)).
Proof.
  unfold silent. intros H.
  destruct (call_spec c w) as (_ & _ & _ & [ -> | -> ] & _).
  - exact H.
  - apply Forall_app. split; [ exact H | ].
    constructor; [ reflexivity | constructor ].
Qed.

Lemma silent_run (calls : list Call) :
  forall w : World enc, silent enc w -> silent enc (run enc calls w).
Proof.
  induction calls as [ | c calls IH ]; intros w H; simpl.
  - exact H.
  - apply IH. now apply silent_call.
Qed.

Lemma silent_delivered (w : World enc) (s : nat) :
  silent enc w -> delivered enc w s = [].
Proof.
  unfold silent, delivered. intros H.
  destruct (nth_error (streams w) s) as [ p | ] eqn:E; [ | reflexivity ].
  rewrite Forall_forall in H. apply H. eapply nth_error_In. exact E.
Qed.

Lemma silent_constructed (files : JS.value) (w : World enc) (t : list Event) :
  constructor enc files = (Ok w, t) -> silent enc w.
Proof.
  intros H. destruct (constructor_spec files w t H) as (ds & _ & _ & Hs & _).
  unfold silent. rewrite Hs. constructor.
Qed.

End Facts.

(** ** The pass and the encoder *)

Lemma plan_entries_dry_run (enc : Encoder) (files : list File.t) :
  forall (zip : ZipFile enc) (w : World enc),
    match dry_run enc zip files with
    | Some zip' =>
        plan_entries enc zip files w = (Ok zip', w, map plan_event files)
    | None => fst (fst (plan_entries enc zip files w)) = Throw EncoderThrew
    end.
Proof.
  induction files as [ | f files IH ]; intros zip w; simpl.
  - reflexivity.
  - step_monad.
    destruct (threw (addReadStream enc zip (File.filename f) (File.size f)));
      [ reflexivity | ].
    specialize (IH (after (addReadStream enc zip (File.filename f)
                             (File.size f))) w).
    destruct (dry_run enc _ files) as [ zip' | ].
    + rewrite IH. reflexivity.
    + destruct (plan_entries enc _ files w) as [[r w'] t]. exact IH.
Qed.

(** The pass over a catalog whose first part the encoder takes. *)
Lemma plan_entries_app (enc : Encoder) (pre post : list File.t) :
  forall (zip zip1 : ZipFile enc) (w : World enc),
    dry_run enc zip pre = Some zip1 ->
    plan_entries enc zip (pre ++ post) w
    = let '(r, w', t) := plan_entries enc zip1 post w in
      (r, w', map plan_event pre ++ t).
Proof.
  induction pre as [ | f pre IH ]; intros zip zip1 w H; simpl in *.
  - injection H as <-. now destruct (plan_entries enc zip post w) as [[r w'] t].
  - step_monad.
    destruct (threw (addReadStream enc zip (File.filename f) (File.size f)));
      [ discriminate | ].
    rewrite (IH _ zip1 w H).
    now destruct (plan_entries enc zip1 post w) as [[r w'] t].
Qed.



(** ** Sample instances are what the code computes *)

Example sample_constructed :
  constructor Stored.encoder Sample.files = (Ok Sample.zip, Sample.planning).
Proof. reflexivity. Qed.

Example sample_unresolved :
  constructor Stored.encoder Sample.unsized = (Ok Sample.unresolved, []).
Proof. reflexivity. Qed.

(** ** Construction *)

(** C6 (as stated, refuted): a descriptor whose source path and archive
    name are both the empty string is not rejected; construction returns an
    instance whose catalog holds the entry. *)
Lemma constructor_accepts_empty_strings :
  let d := JS.Obj [("path", JS.Str ""); ("filename", JS.Str "")] in
  JS.get d "path" = JS.Str ""
  /\ JS.get d "filename" = JS.Str ""
  /\ constructor Stored.encoder (JS.Arr [d])
     = (Ok (fresh Stored.encoder
              [ {| File.path := ""; File.filename := ""; File.size := None;
                   File.crc32Watcher := None;
                   File.compressedSizeCounter := None |} ]), []).
Proof. repeat split. Qed.

(** C6 (amended): construction fails with a validation error, before any
    call to the encoder, exactly when some descriptor is not an object
    whose [path] and [filename] are strings (empty or not) and whose [size]
    is undefined, null or a non-negative integer.  When every descriptor is
    of that form, validation yields the catalog of their entries, in order;
    construction then returns the instance at once if some size is left
    out, and otherwise is the outcome of the size-calculation pass. *)
Theorem constructor_validation (enc : Encoder) (ds : list JS.value) :
  if forallb well_formed ds
  then validate (JS.Arr ds) = Ok (map entry_of ds, forallb declares_size ds)
       /\ constructor enc (JS.Arr ds)
          = if forallb declares_size ds
            then match _calculateZipSize enc (fresh enc (map entry_of ds)) with
                 | (inl _, w, t) => (Ok w, t)
                 | (inr e, _, t) => (Throw e, t)
                 end
            else (Ok (fresh enc (map entry_of ds)), [])
  else exists e,
         ValidationError e = true
         /\ validate (JS.Arr ds) = Throw e
         /\ constructor enc (JS.Arr ds) = (Throw e, []).
Proof.
  unfold constructor, validate. simpl. rewrite map_conform_eq.
  destruct (forallb well_formed ds); simpl.
  - split; reflexivity.
  - exists (Invariant (first_complaint ds)).
    split; [ apply first_complaint_is_validation | split; reflexivity ].
Qed.

(** What the checks of one descriptor let through, case by case. *)
Example well_formed_cases (p n : string) (z : Z) (v : JS.value) :
  well_formed (descriptor p n (JS.Num (JS.Int z))) = (0 <=? z)
  /\ well_formed (descriptor p n (JS.Num JS.NonInt)) = false
  /\ well_formed (descriptor p n JS.Undefined) = true
  /\ well_formed (descriptor p n JS.Null) = true
  /\ well_formed (JS.Obj [("path", JS.Str p); ("filename", JS.Str n)]) = true
  /\ well_formed (JS.Obj [("path", JS.Num (JS.Int z)); ("filename", JS.Str n)])
     = false
  /\ well_formed (JS.Obj [("path", JS.Str p)]) = false
  /\ well_formed (JS.Str p) = false.
Proof. repeat split. Qed.



(** A zero-byte entry in the size calculated with the concrete encoder:
    headers, descriptor and directory record, no content. *)
Example zero_byte_archive_size :
  exists w t,
    constructor Stored.encoder (JS.Arr [Sample.zero]) = (Ok w, t)
    /\ size (this w) = Some (30 + 9 + 0 + 16 + (46 + 9) + 22)
    /\ t = [PlanEntry "empty.txt" (Some 0); PlanEnd].
Proof. eexists; eexists. repeat split. Qed.

(** ** The archive size *)

Lemma allSizesKnown_pristine (fs : list File.t) :
  allSizesKnown (map pristine fs) = allSizesKnown fs.
Proof.
  unfold allSizesKnown.
  induction fs as [ | f fs IH ]; simpl; [ reflexivity | now rewrite IH ].
Qed.

Lemma planned_pristine (enc : Encoder) (fs fs' : list File.t) (sz : option Z) :
  map pristine fs = map pristine fs' -> planned enc fs sz -> planned enc fs' sz.
Proof. unfold planned. now intros <-. Qed.

Lemma planned_truthy (enc : Encoder) (fs : list File.t) (sz : option Z) :
  planned enc fs sz -> JS.truthy sz = true.
Proof.
  intros (w & t & Hc & <-).
  pose proof (calculateZipSize_spec enc (fresh enc (map pristine fs))) as P.
  rewrite Hc in P. destruct P as (_ & _ & _ & H). now apply H.
Qed.

Lemma size_invariant (enc : Encoder) (w : World enc) (t : list Event) :
  reaches enc w t ->
  if allSizesKnown (_files (this w))
  then planned enc (_files (this w)) (size (this w))
  else size (this w) = None.
Proof.
  induction 1 as [ files w t Hc | c w t Hr IH ].
  - destruct (constructor_spec enc files w t Hc)
      as (ds & _ & _ & _ & Hth & _ & Hcase).
    assert (Hf : _files (this w) = map entry_of ds) by now rewrite Hth.
    rewrite Hf, allSizesKnown_entries.
    destruct (forallb declares_size ds).
    + now destruct Hcase as (_ & Hp & _).
    + now destruct Hcase as (Hn & _).
  - destruct (call_spec enc c w) as (Hsz & Hf & _).
    rewrite <- allSizesKnown_pristine, Hf, allSizesKnown_pristine, Hsz.
    destruct (allSizesKnown (_files (this w))); [ | exact IH ].
    apply planned_pristine with (_files (this w)); [ now symmetry | exact IH ].
Qed.

(** C5: in every state an instance can reach, [this.size] is defined
    exactly when every catalog entry has a known size and the
    size-calculation pass over the catalog has completed; a defined size is
    the one that pass left; an instance whose sizes are all known has it
    defined from construction on, and it is null while some size is
    unknown. *)
Theorem size_defined_iff_planned (enc : Encoder) (w : World enc)
    (t : list Event) :
  reaches enc w t ->
  (size (this w) <> None
   <-> allSizesKnown (_files (this w)) = true
       /\ exists sz, planned enc (_files (this w)) sz)
  /\ (size (this w) <> None -> planned enc (_files (this w)) (size (this w)))
  /\ (allSizesKnown (_files (this w)) = true -> size (this w) <> None)
  /\ (allSizesKnown (_files (this w)) = false -> size (this w) = None).
Proof.
  intros Hr. pose proof (size_invariant enc w t Hr) as I.
  destruct (allSizesKnown (_files (this w))).
  - pose proof (planned_truthy enc _ _ I) as Ht.
    assert (Hn : size (this w) <> None).
    { intros E. rewrite E in Ht. discriminate. }
    split; [ split | split; [ | split ] ].
    + intros _. split; [ reflexivity | now exists (size (this w)) ].
    + now intros _.
    + now intros _.
    + now intros _.
    + discriminate.
  - split; [ split | split; [ | split ] ].
    + intros Hn. contradiction.
    + now intros (Hf & _).
    + intros Hn. contradiction.
    + discriminate.
    + now intros _.
Qed.

Lemma size_defined_iff_planned_witness :
  reaches Stored.encoder Sample.zip Sample.planning
  /\ (size (this Sample.zip) <> None
      <-> allSizesKnown (_files (this Sample.zip)) = true
          /\ exists sz, planned Stored.encoder (_files (this Sample.zip)) sz).
Proof.
  assert (H : reaches Stored.encoder Sample.zip Sample.planning).
  { apply reaches_new with Sample.files. reflexivity. }
  split; [ exact H | ].
  exact (proj1 (size_defined_iff_planned Stored.encoder Sample.zip
                  Sample.planning H)).
Defined.

(** With the concrete encoder: the sample of two entries has its size from
    construction, the sample with a size left out has none, whatever is
    called on it. *)
Example size_of_samples :
  size (this Sample.zip) = Some 234
  /\ forall calls,
       size (this (run Stored.encoder calls Sample.unresolved)) = None.
Proof.
  split; [ reflexivity | ].
  intros calls.
  assert (G : forall w : World Stored.encoder,
             size (this w) = None ->
             size (this (run Stored.encoder calls w)) = None).
  { induction calls as [ | c calls IH ]; intros w H; simpl; [ exact H | ].
    apply IH. destruct (call_spec Stored.encoder c w) as (-> & _). exact H. }
  now apply G.
Qed.

(** ** [init] *)

(** C3 (the code at the failing input): on an instance built from a
    descriptor without size, [init] stats nothing and records no size: it
    throws a TypeError at the loop over [this.files], and leaves the
    instance as it was, [this.size] null. *)
Theorem init_throws_on_unresolved_catalog :
  constructor Stored.encoder Sample.unsized = (Ok Sample.unresolved, [])
  /\ size (this Sample.unresolved) = None
  /\ forall stat,
       init Stored.encoder stat Sample.unresolved
       = (Throw TypeError, Sample.unresolved, []).
Proof.
  split; [ reflexivity | split; [ reflexivity | ] ].
  intros stat. now rewrite init_eq.
Qed.

(** The same on every instance and encoder: [init] either returns at its
    first line or throws before it reaches [stat]. *)
Lemma init_never_stats (enc : Encoder) (stat : string -> option Z)
    (w : World enc) :
  snd (fst (init enc stat w)) = w /\ snd (init enc stat w) = [].
Proof.
  rewrite init_eq. destruct (JS.truthy (size (this w))); split; reflexivity.
Qed.

(** C8: [init] is idempotent: a second call, whatever the file system has
    become, ends as the first did and leaves the sizes and [this.size] the
    first call left; and on an instance whose size is calculated a call
    returns without any effect. *)
Theorem init_idempotent (enc : Encoder) (stat stat' : string -> option Z)
    (w : World enc) :
  let once := init enc stat w in
  let twice := init enc stat' (snd (fst once)) in
  (fst (fst twice) = fst (fst once)
   /\ snd (fst twice) = snd (fst once)
   /\ map File.size (_files (this (snd (fst twice))))
      = map File.size (_files (this (snd (fst once))))
   /\ size (this (snd (fst twice))) = size (this (snd (fst once))))
  /\ (JS.truthy (size (this w)) = true -> once = (Ok tt, w, [])).
Proof.
  simpl. rewrite (init_eq enc stat w).
  destruct (JS.truthy (size (this w))) eqn:E; simpl; rewrite init_eq, E.
  - repeat split.
  - split; [ repeat split | discriminate ].
Qed.

Lemma init_idempotent_witness :
  JS.truthy (size (this Sample.zip)) = true
  /\ init Stored.encoder (fun _ => Some 7) Sample.zip = (Ok tt, Sample.zip, []).
Proof.
  split; [ reflexivity | ].
  exact (proj2 (init_idempotent Stored.encoder (fun _ => Some 7)
                  (fun _ => None) Sample.zip) eq_refl).
Defined.

(** ** [getStream]: the preconditions *)

(** C9: a call of [getStream] that fails one of its four precondition
    checks leaves the instance and the store of streams as they were and
    calls no collaborator: no output is added, no stream is created, no
    entry is handed to the encoder. *)
Theorem getStream_rejection_changes_nothing (enc : Encoder)
    (offset length : JS.value) (w w' : World enc) (e : error)
    (t : list Event) :
  getStream enc offset length w = (Throw e, w', t) ->
  (NotPlannedError e || InvalidRangeError e)%bool = true ->
  w' = w /\ t = [].
Proof.
  rewrite getStream_eq.
  destruct (rejection enc (this w) offset length) as [ m | ].
  { intros H _. injection H as _ <- <-. split; reflexivity. }
  simpl.
  destruct (JS.int_of offset <? _currentSize (this w)); [ discriminate | ].
  destruct (_currentFileIndex (this w)); [ discriminate | ].
  pose proof (startNextFile_errors enc (registered enc w offset length)) as P.
  destruct (_startNextFile enc (registered enc w offset length))
    as [[[[] | e'] w2] t2]; simpl in P; [ discriminate | ].
  intros H He. injection H as -> _ _. rewrite P in He. discriminate.
Qed.

Lemma getStream_rejection_changes_nothing_witness :
  getStream Stored.encoder (JS.Num (JS.Int 234)) (JS.Num (JS.Int 1)) Sample.zip
  = (Throw (Invariant Msg.beyond_end), Sample.zip, [])
  /\ (NotPlannedError (Invariant Msg.beyond_end)
      || InvalidRangeError (Invariant Msg.beyond_end))%bool = true
  /\ Sample.zip = Sample.zip /\ @nil Event = [].
Proof.
  split; [ reflexivity | split; [ reflexivity | ] ].
  exact (getStream_rejection_changes_nothing Stored.encoder
           (JS.Num (JS.Int 234)) (JS.Num (JS.Int 1)) Sample.zip Sample.zip
           (Invariant Msg.beyond_end) [] eq_refl eq_refl).
Defined.

(** The checks in the order of the code: the first that fails decides. *)
Lemma getStream_rejected (enc : Encoder) (offset length : JS.value)
    (w : World enc) (m : string) :
  rejection enc (this w) offset length = Some m ->
  getStream enc offset length w = (Throw (Invariant m), w, []).
Proof. intros H. now rewrite getStream_eq, H. Qed.

Lemma rejection_none (enc : Encoder) (z : Zip enc) (offset length : JS.value) :
  rejection enc z offset length = None
  <-> JS.truthy (size z) = true
      /\ JS.isPositiveIntegerOrZero offset = true
      /\ JS.isPositiveInteger length = true
      /\ JS.add (JS.int_of offset) (JS.int_of length)
         <= JS.number_of (size z).
Proof.
  unfold rejection.
  destruct (JS.truthy (size z)); simpl.
  2: { split; [ discriminate | now intros (H & _) ]. }
  destruct (JS.isPositiveIntegerOrZero offset); simpl.
  2: { split; [ discriminate | now intros (_ & H & _) ]. }
  destruct (JS.isPositiveInteger length); simpl.
  2: { split; [ discriminate | now intros (_ & _ & H & _) ]. }
  destruct (Z.leb_spec (JS.add (JS.int_of offset) (JS.int_of length))
              (JS.number_of (size z))); simpl.
  - split; [ intros _; repeat split; assumption | reflexivity ].
  - split; [ discriminate | intros (_ & _ & _ & H'); lia ].
Qed.

(** After the checks: the stream exists, empty, and the output is in
    [_outputs], whatever the producer does next. *)
Lemma getStream_registers (enc : Encoder) (offset length : JS.value)
    (w : World enc) :
  rejection enc (this w) offset length = None ->
  let '(r, w', t) := getStream enc offset length w in
  streams w' = streams w ++ [ {| written := [] |} ]
  /\ _outputs (this w') = _outputs (this w) ++ [output_for enc w offset length]
  /\ match r with
     | inl s => s = List.length (streams w)
     | inr e => (NotPlannedError e || InvalidRangeError e)%bool = false
     end.
Proof.
  intros H. rewrite getStream_eq, H. simpl.
  destruct (JS.int_of offset <? _currentSize (this w)).
  { repeat split. }
  destruct (_currentFileIndex (this w)).
  { repeat split. }
  pose proof (startNextFile_spec enc (registered enc w offset length)) as P.
  pose proof (startNextFile_errors enc (registered enc w offset length)) as Q.
  destruct (_startNextFile enc (registered enc w offset length))
    as [[[[] | e'] w2] t2]; simpl in *;
    destruct P as (Hst & _ & Hou & _); rewrite Hst, Hou; repeat split.
  exact Q.
Qed.

Lemma pipe_chain_late (piped : list Stream) :
  forall (i : nat) (f : File.t),
    (4 <= i)%nat -> pipe_chain i piped f = f.
Proof.
  induction piped as [ | s piped IH ]; intros i f Hi; simpl.
  - reflexivity.
  - rewrite IH by lia.
    destruct i as [ | [ | [ | [ | i ] ] ] ]; try lia. reflexivity.
Qed.

Lemma pipe_chain_captures (piped : list Stream) (f : File.t) :
  (4 <= List.length piped)%nat ->
  (truthy_object (File.crc32Watcher (pipe_chain 0 piped f))
   && truthy_object (File.compressedSizeCounter (pipe_chain 0 piped f)))%bool
  = true.
Proof.
  destruct piped as [ | s0 [ | s1 [ | s2 [ | s3 rest ] ] ] ]; simpl;
    try lia.
  intros _. now rewrite pipe_chain_late by lia.
Qed.

(** With an encoder that keeps its part for the entry at hand (one header
    written, the read stream piped through at least four transforms), a
    request that passes the checks gets its stream. *)
Lemma getStream_returns (enc : Encoder) (offset length : JS.value)
    (w : World enc) (file : File.t) :
  rejection enc (this w) offset length = None ->
  nth_error (_files (this w)) (_nextFileIndex (this w)) = Some file ->
  threw (addReadStream enc (_zip (this w)) (File.filename file)
           (File.size file)) = false ->
  List.length (writes (addReadStream enc (_zip (this w)) (File.filename file)
                         (File.size file))) = 1%nat ->
  (4 <= List.length (pipes (addReadStream enc (_zip (this w))
                              (File.filename file) (File.size file))))%nat ->
  fst (fst (getStream enc offset length w)) = Ok (List.length (streams w)).
Proof.
  intros R Hfile Hthrew Hone Hpipes.
  rewrite getStream_eq, R. simpl.
  destruct (JS.int_of offset <? _currentSize (this w)); [ reflexivity | ].
  destruct (_currentFileIndex (this w)); [ reflexivity | ].
  unfold _startNextFile, registered. step_monad.
  destruct w as [z st]. destruct z as [sz ch zp ou cf nf cs fs].
  simpl in *. rewrite Hfile. simpl. rewrite Hthrew. simpl.
  rewrite length_app, length_map, Hone, Nat.eqb_refl. simpl.
  rewrite pipe_chain_captures by exact Hpipes. simpl.
  destruct (writes (addReadStream enc zp (File.filename file) (File.size file)))
    as [ | wr [ | wr' rest ] ]; simpl in Hone; try discriminate.
  simpl. rewrite nth_error_app2 by lia. rewrite Nat.sub_diag. reflexivity.
Qed.

Lemma valid_offset (v : JS.value) :
  JS.isPositiveIntegerOrZero v = true -> 0 <= JS.int_of v.
Proof.
  destruct v as [ | | b | [ z | ] | s | ps | es ]; try discriminate.
  simpl. apply Z.leb_le.
Qed.

Lemma valid_length (v : JS.value) :
  JS.isPositiveInteger v = true -> 0 < JS.int_of v.
Proof.
  destruct v as [ | | b | [ z | ] | s | ps | es ]; try discriminate.
  simpl. apply Z.ltb_lt.
Qed.

(** The range checks as the code makes them, for an archive of any size:
    the bound is checked on the sum as a double. *)
Lemma getStream_checks (enc : Encoder) (w : World enc)
    (offset length : JS.value) :
  JS.truthy (size (this w)) = true ->
  let '(r, w', t) := getStream enc offset length w in
  ((exists e, r = Throw e /\ InvalidRangeError e = true)
   <-> (JS.isPositiveIntegerOrZero offset = false
        \/ JS.isPositiveInteger length = false
        \/ JS.number_of (size (this w))
           < JS.add (JS.int_of offset) (JS.int_of length)))
  /\ ((exists e, r = Throw e /\ InvalidRangeError e = true) ->
      w' = w /\ t = [])
  /\ (JS.isPositiveIntegerOrZero offset = true ->
      JS.isPositiveInteger length = true ->
      JS.add (JS.int_of offset) (JS.int_of length)
      <= JS.number_of (size (this w)) ->
      streams w' = streams w ++ [ {| written := [] |} ]
      /\ _outputs (this w')
         = _outputs (this w) ++ [output_for enc w offset length]).
Proof.
  intros Hs.
  destruct (rejection enc (this w) offset length) as [ m | ] eqn:R.
  - rewrite (getStream_rejected enc offset length w m R).
    assert (Hm : InvalidRangeError (Invariant m) = true
                 /\ (JS.isPositiveIntegerOrZero offset = false
                     \/ JS.isPositiveInteger length = false
                     \/ JS.number_of (size (this w))
                        < JS.add (JS.int_of offset) (JS.int_of length))).
    { unfold rejection in R. rewrite Hs in R. simpl in R.
      destruct (JS.isPositiveIntegerOrZero offset); simpl in R;
        [ | injection R as <-; split; [ reflexivity | now left ] ].
      destruct (JS.isPositiveInteger length); simpl in R;
        [ | injection R as <-; split; [ reflexivity | right; now left ] ].
      destruct (Z.leb_spec (JS.add (JS.int_of offset) (JS.int_of length))
                  (JS.number_of (size (this w)))); simpl in R;
        [ discriminate | ].
      injection R as <-. split; [ reflexivity | right; right; assumption ]. }
    destruct Hm as (Hm1 & Hm2).
    split; [ split; [ intros _; exact Hm2 | intros _; eauto ] | split ].
    + intros _. split; reflexivity.
    + intros Ho Hl Hb. exfalso.
      assert (rejection enc (this w) offset length = None) as R'
          by (apply rejection_none; repeat split; assumption).
      rewrite R in R'. discriminate.
  - pose proof (getStream_registers enc offset length w R) as G.
    apply rejection_none in R as (_ & Ho & Hl & Hb).
    destruct (getStream enc offset length w) as [[r w'] t].
    destruct G as (Hst & Hou & Hr).
    assert (Hno : ~ (exists e, r = Throw e /\ InvalidRangeError e = true)).
    { intros (e & -> & He). apply orb_false_iff in Hr as (_ & Hr).
      rewrite Hr in He. discriminate. }
    split; [ split | split ].
    + intros H. contradiction.
    + intros [ H | [ H | H ] ];
        [ rewrite Ho in H; discriminate
        | rewrite Hl in H; discriminate | lia ].
    + intros H. contradiction.
    + intros _ _ _. split; assumption.
Qed.

(** C2 (as stated, refuted): on the archive of one entry of [2 ^ 54]
    bytes, whose size is the double [2 ^ 54 + 240], the request for one
    byte at [offset = this.size] is not rejected: [offset + length] rounds
    back to the size, the checks pass and a stream is returned. *)
Lemma getStream_accepts_byte_past_huge_end :
  size (this More.huge) = Some (2 ^ 54 + 240)
  /\ JS.representable (2 ^ 54 + 240) = true
  /\ JS.add (2 ^ 54 + 240) 1 = 2 ^ 54 + 240
  /\ fst (fst (getStream Stored.encoder (JS.Num (JS.Int (2 ^ 54 + 240)))
                 (JS.Num (JS.Int 1)) More.huge)) = Ok 0%nat.
Proof.
  split; [ reflexivity | ].
  split; [ vm_compute; reflexivity | ].
  split; vm_compute; reflexivity.
Qed.

(** C2 (amended): on an instance whose size is calculated and below
    [2 ^ 53], where the sum of two doubles is exact, [getStream] fails with
    one of the range assertions exactly when [offset] is not a non-negative
    integer, or [length] is not a positive integer, or [offset + length]
    exceeds [this.size]; it then fails before anything is created or
    started.  A request within bounds passes the checks: its stream is
    created, empty, its output joins [_outputs], and the stream is returned
    when the encoder writes its one header and pipes the entry's stream
    for the entry at hand.  The request for one byte at
    [offset = this.size] fails. *)
Theorem getStream_range_check (enc : Encoder) (w : World enc) :
  JS.truthy (size (this w)) = true ->
  JS.number_of (size (this w)) < 2 ^ 53 ->
  (forall offset length,
     let '(r, w', t) := getStream enc offset length w in
     ((exists e, r = Throw e /\ InvalidRangeError e = true)
      <-> (JS.isPositiveIntegerOrZero offset = false
           \/ JS.isPositiveInteger length = false
           \/ JS.number_of (size (this w))
              < JS.int_of offset + JS.int_of length))
     /\ ((exists e, r = Throw e /\ InvalidRangeError e = true) ->
         w' = w /\ t = [])
     /\ (JS.isPositiveIntegerOrZero offset = true ->
         JS.isPositiveInteger length = true ->
         JS.int_of offset + JS.int_of length <= JS.number_of (size (this w)) ->
         streams w' = streams w ++ [ {| written := [] |} ]
         /\ _outputs (this w')
            = _outputs (this w) ++ [output_for enc w offset length]
         /\ (forall file,
               nth_error (_files (this w)) (_nextFileIndex (this w))
               = Some file ->
               threw (addReadStream enc (_zip (this w)) (File.filename file)
                        (File.size file)) = false ->
               List.length (writes (addReadStream enc (_zip (this w))
                                      (File.filename file) (File.size file)))
               = 1%nat ->
               (4 <= List.length (pipes (addReadStream enc (_zip (this w))
                                           (File.filename file)
                                           (File.size file))))%nat ->
               r = Ok (List.length (streams w)))))
  /\ (exists e,
        fst (fst (getStream enc (JS.Num (JS.Int (JS.number_of (size (this w)))))
                    (JS.Num (JS.Int 1)) w)) = Throw e
        /\ InvalidRangeError e = true).
Proof.
  intros Hs Hsmall. split.
  - intros offset length.
    pose proof (getStream_checks enc w offset length Hs) as C.
    assert (Hret : forall file,
               JS.isPositiveIntegerOrZero offset = true ->
               JS.isPositiveInteger length = true ->
               JS.int_of offset + JS.int_of length
               <= JS.number_of (size (this w)) ->
               nth_error (_files (this w)) (_nextFileIndex (this w))
               = Some file ->
               threw (addReadStream enc (_zip (this w)) (File.filename file)
                        (File.size file)) = false ->
               List.length (writes (addReadStream enc (_zip (this w))
                                      (File.filename file) (File.size file)))
               = 1%nat ->
               (4 <= List.length (pipes (addReadStream enc (_zip (this w))
                                           (File.filename file)
                                           (File.size file))))%nat ->
               fst (fst (getStream enc offset length w))
               = Ok (List.length (streams w))).
    { intros file Ho Hl Hb Hfile Hthrew Hone Hpipes.
      apply getStream_returns with file; try assumption.
      apply rejection_none. repeat split; try assumption.
      apply add_within_exact;
        [ now apply valid_offset | now apply valid_length | | ]; assumption. }
    destruct (getStream enc offset length w) as [[r w'] t].
    destruct C as (Ciff & Cfail & Cok).
    split; [ | split ].
    + rewrite Ciff.
      destruct (JS.isPositiveIntegerOrZero offset) eqn:Ho;
        [ | split; intros _; now left ].
      destruct (JS.isPositiveInteger length) eqn:Hl;
        [ | split; intros _; right; now left ].
      pose proof (add_within_exact (JS.int_of offset) (JS.int_of length)
                    (JS.number_of (size (this w)))
                    (valid_offset _ Ho) (valid_length _ Hl) Hsmall) as E.
      split; intros [ H | [ H | H ] ]; try discriminate; right; right; lia.
    + exact Cfail.
    + intros Ho Hl Hb.
      assert (Hb' : JS.add (JS.int_of offset) (JS.int_of length)
                    <= JS.number_of (size (this w))).
      { apply add_within_exact;
          [ now apply valid_offset | now apply valid_length | | ];
          assumption. }
      destruct (Cok Ho Hl Hb') as (Hst & Hou).
      split; [ exact Hst | split; [ exact Hou | ] ].
      intros file Hfile Hthrew Hone Hpipes.
      exact (Hret file Ho Hl Hb Hfile Hthrew Hone Hpipes).
  - destruct (size (this w)) as [ n | ] eqn:Hn; [ | discriminate ].
    simpl JS.number_of in *.
    assert (R : exists m,
               rejection enc (this w) (JS.Num (JS.Int n)) (JS.Num (JS.Int 1))
               = Some m /\ InvalidRangeError (Invariant m) = true).
    { unfold rejection. rewrite Hn, Hs. simpl.
      destruct (Z.leb_spec 0 n) as [ Hpos | _ ]; simpl;
        [ | eexists; split; reflexivity ].
      destruct (Z.leb_spec (JS.add n 1) n) as [ Hle | _ ].
      - apply add_within_exact in Hle; lia.
      - simpl. eexists; split; reflexivity. }
    destruct R as (m & R & Hm).
    rewrite (getStream_rejected enc _ _ w m R). simpl. eauto.
Qed.

Lemma getStream_range_check_witness :
  JS.truthy (size (this Sample.zip)) = true
  /\ JS.number_of (size (this Sample.zip)) < 2 ^ 53
  /\ exists e,
       fst (fst (getStream Stored.encoder (JS.Num (JS.Int 234))
                   (JS.Num (JS.Int 1)) Sample.zip)) = Throw e
       /\ InvalidRangeError e = true.
Proof.
  split; [ reflexivity | split; [ reflexivity | ] ].
  exact (proj2 (getStream_range_check Stored.encoder Sample.zip
                  eq_refl eq_refl)).
Defined.

(** The boundary requests of the sample: the first and the last byte are
    within bounds, one byte past the end is not, nor are a negative offset,
    a zero length or a fractional offset. *)
Example getStream_boundaries :
  let try offset length :=
    fst (fst (getStream Stored.encoder offset length Sample.zip)) in
  try (JS.Num (JS.Int 0)) (JS.Num (JS.Int 1)) = Ok 0%nat
  /\ try (JS.Num (JS.Int 233)) (JS.Num (JS.Int 1)) = Ok 0%nat
  /\ try (JS.Num (JS.Int 0)) (JS.Num (JS.Int 234)) = Ok 0%nat
  /\ try (JS.Num (JS.Int 234)) (JS.Num (JS.Int 1))
     = Throw (Invariant Msg.beyond_end)
  /\ try (JS.Num (JS.Int (-1))) (JS.Num (JS.Int 1))
     = Throw (Invariant Msg.bad_offset)
  /\ try (JS.Num (JS.Int 0)) (JS.Num (JS.Int 0))
     = Throw (Invariant Msg.bad_length)
  /\ try (JS.Num JS.NonInt) (JS.Num (JS.Int 1))
     = Throw (Invariant Msg.bad_offset)
  /\ try JS.Undefined (JS.Num (JS.Int 1)) = Throw (Invariant Msg.bad_offset).
Proof. repeat split. Qed.

(** ** The producer *)

(** C7: when [_startNextFile] hands an entry to the encoder and the encoder
    returns without having written exactly one buffer, processing stops
    with the assertion on the local file header (the spec's
    LayoutComputationError): the position of the entry's data is not
    computed, [_currentSize] stays as it was. *)
Theorem startNextFile_requires_one_header (enc : Encoder) (w : World enc)
    (file : File.t) :
  nth_error (_files (this w)) (_nextFileIndex (this w)) = Some file ->
  threw (addReadStream enc (_zip (this w)) (File.filename file)
           (File.size file)) = false ->
  List.length (writes (addReadStream enc (_zip (this w)) (File.filename file)
                         (File.size file))) <> 1%nat ->
  exists w',
    _startNextFile enc w
    = (Throw (Invariant Msg.no_header), w',
       [StartEntry (_nextFileIndex (this w))])
    /\ LayoutComputationError (Invariant Msg.no_header) = true
    /\ _currentSize (this w') = _currentSize (this w).
Proof.
  intros Hfile Hthrew Hlen.
  unfold _startNextFile. step_monad.
  destruct w as [z st]. destruct z as [sz ch zp ou cf nf cs fs].
  simpl in *. rewrite Hfile. simpl. rewrite Hthrew. simpl.
  rewrite length_app, length_map.
  destruct (Nat.eqb_spec
              (List.length ch
               + List.length (writes (addReadStream enc zp (File.filename file)
                                        (File.size file))))
              (List.length ch + 1)) as [ E | _ ]; [ lia | ].
  simpl. eexists. repeat split.
Qed.

Lemma startNextFile_requires_one_header_witness :
  nth_error (_files (this Sample.stalled)) (_nextFileIndex (this Sample.stalled))
  = Some {| File.path := "a"; File.filename := "a.txt"; File.size := Some 5;
            File.crc32Watcher := None; File.compressedSizeCounter := None |}
  /\ writes (addReadStream Stored.encoder (_zip (this Sample.stalled))
               "a.txt" (Some 5)) = []
  /\ exists w',
       _startNextFile Stored.encoder Sample.stalled
       = (Throw (Invariant Msg.no_header), w', [StartEntry 0])
       /\ LayoutComputationError (Invariant Msg.no_header) = true
       /\ _currentSize (this w') = _currentSize (this Sample.stalled).
Proof.
  split; [ reflexivity | split; [ reflexivity | ] ].
  apply (startNextFile_requires_one_header Stored.encoder Sample.stalled
           {| File.path := "a"; File.filename := "a.txt"; File.size := Some 5;
              File.crc32Watcher := None;
              File.compressedSizeCounter := None |}).
  - reflexivity.
  - reflexivity.
  - simpl. discriminate.
Defined.

(** The failure reaches the caller of [getStream]; with one header written
    the entry is started and [_currentSize] is the end of its data. *)
Example getStream_header_check :
  fst (fst (getStream Stored.encoder (JS.Num (JS.Int 0)) (JS.Num (JS.Int 1))
              Sample.stalled)) = Throw (Invariant Msg.no_header)
  /\ fst (fst (getStream Stored.encoder (JS.Num (JS.Int 0)) (JS.Num (JS.Int 1))
                 Sample.zip)) = Ok 0%nat
  /\ _currentSize
       (this (snd (fst (getStream Stored.encoder (JS.Num (JS.Int 0))
                          (JS.Num (JS.Int 1)) Sample.zip)))) = 30 + 5 + 5.
Proof. repeat split. Qed.

Lemma producer_invariant (enc : Encoder) (w : World enc) (t : list Event) :
  reaches enc w t ->
  _nextFileIndex (this w) = 0%nat
  /\ (started t = []
      \/ (started t = [0%nat] /\ _currentFileIndex (this w) = Some 0%nat)).
Proof.
  induction 1 as [ files w t Hc | c w t Hr (Hn & IH) ].
  - destruct (constructor_spec enc files w t Hc)
      as (ds & _ & _ & _ & Hth & Hs & _).
    split; [ now rewrite Hth | now left ].
  - destruct (call_spec enc c w) as (_ & _ & Hn' & _ & Hcur).
    split; [ now rewrite Hn' | ].
    rewrite started_app.
    destruct Hcur as [ (Hsame & ->) | (Hnone & Hnew & [ -> | -> ]) ]; simpl.
    + rewrite app_nil_r, Hsame. exact IH.
    + rewrite app_nil_r. destruct IH as [ IH | (_ & IH) ];
        [ now left | rewrite Hnone in IH; discriminate ].
    + rewrite Hn in *. destruct IH as [ -> | (_ & IH) ];
        [ right; split; [ reflexivity | exact Hnew ]
        | rewrite Hnone in IH; discriminate ].
Qed.

(** C4: over the whole life of an instance the entries handed to the
    producer's encoder are an initial segment of the catalog, in catalog
    order, and there is at most one of them: no entry is ever started
    after another, so none is started before its predecessor is fully
    streamed and no two are streamed at once, however many requests are
    made. *)
Theorem producer_in_catalog_order (enc : Encoder) (w : World enc)
    (t : list Event) :
  reaches enc w t ->
  started t = seq 0 (List.length (started t))
  /\ (List.length (started t) <= 1)%nat
  /\ (forall i, ~ In (S i) (started t)).
Proof.
  intros Hr. destruct (producer_invariant enc w t Hr) as (_ & [ -> | (-> & _) ]).
  - repeat split; simpl; auto.
  - repeat split; simpl; auto. intros i [ H | [] ]. discriminate.
Qed.

Lemma producer_in_catalog_order_witness :
  let c := GetStream (JS.Num (JS.Int 100)) (JS.Num (JS.Int 20)) in
  let w := fst (call Stored.encoder c Sample.zip) in
  let t := Sample.planning ++ snd (call Stored.encoder c Sample.zip) in
  reaches Stored.encoder w t
  /\ started t = [0%nat]
  /\ started t = seq 0 (List.length (started t))
  /\ (List.length (started t) <= 1)%nat
  /\ (forall i, ~ In (S i) (started t)).
Proof.
  intros c w t.
  assert (H : reaches Stored.encoder w t).
  { apply reaches_call. apply reaches_new with Sample.files. reflexivity. }
  split; [ exact H | split; [ reflexivity | ] ].
  exact (producer_in_catalog_order Stored.encoder w t H).
Defined.

(** Requests that follow the first, wherever they point, start nothing. *)
Example later_requests_start_nothing :
  let first := GetStream (JS.Num (JS.Int 0)) (JS.Num (JS.Int 1)) in
  let w := fst (call Stored.encoder first Sample.zip) in
  snd (call Stored.encoder first Sample.zip) = [StartEntry 0]
  /\ snd (call Stored.encoder
            (GetStream (JS.Num (JS.Int 200)) (JS.Num (JS.Int 34))) w) = []
  /\ snd (call Stored.encoder
            (GetStream (JS.Num (JS.Int 39)) (JS.Num (JS.Int 1))) w) = [].
Proof. repeat split. Qed.

(** ** Delivery *)

(** Whatever is called on an instance, no stream ever holds a byte. *)
Lemma nothing_delivered (enc : Encoder) (files : JS.value) (w : World enc)
    (t : list Event) (calls : list Call) (s : nat) :
  constructor enc files = (Ok w, t) ->
  delivered enc (run enc calls w) s = [].
Proof.
  intros H. apply silent_delivered, silent_run.
  now apply silent_constructed with files t.
Qed.

(** C1 (the code at the failing input): on the sample archive of 234 bytes
    the request for the first byte is accepted and returns a stream, and
    that stream holds no byte then or after any further calls, while the
    first byte of any archive of that size is a sequence of one byte. *)
Theorem getStream_delivers_no_bytes :
  exists (s : nat) (w' : World Stored.encoder) (t' : list Event),
    constructor Stored.encoder Sample.files = (Ok Sample.zip, Sample.planning)
    /\ size (this Sample.zip) = Some 234
    /\ getStream Stored.encoder (JS.Num (JS.Int 0)) (JS.Num (JS.Int 1))
         Sample.zip = (Ok s, w', t')
    /\ (forall calls, delivered Stored.encoder (run Stored.encoder calls w') s = [])
    /\ (forall archive : list byte,
          Z.of_nat (List.length archive) = 234 ->
          List.length (slice archive 0 1) = 1%nat
          /\ slice archive 0 1 <> delivered Stored.encoder w' s).
Proof.
  eexists; eexists; eexists.
  split; [ reflexivity | split; [ reflexivity | split; [ reflexivity | ] ] ].
  split.
  - intros calls. apply silent_delivered, silent_run.
    repeat constructor.
  - intros [ | b archive ] H; simpl in H; [ lia | ].
    split; [ reflexivity | discriminate ].
Qed.

(** * Further properties of the class *)

(** ** Construction *)

(** X1: an instance that construction returns has served nothing and
    started nothing: no chunk, no output, no stream, the producer idle at
    entry 0 with [_currentSize] 0, the producer's encoder as [new ZipFile()]
    left it, and the catalog made of the descriptors' entries, in order,
    with no captured stream.  The encoder calls of construction are those
    of the size calculation, made only when every size is declared. *)
Theorem constructed_instance_is_pristine (enc : Encoder) (files : JS.value)
    (w : World enc) (t : list Event) :
  constructor enc files = (Ok w, t) ->
  exists ds,
    files = JS.Arr ds
    /\ _files (this w) = map entry_of ds
    /\ _chunks (this w) = []
    /\ _outputs (this w) = []
    /\ streams w = []
    /\ _currentFileIndex (this w) = None
    /\ _nextFileIndex (this w) = 0%nat
    /\ _currentSize (this w) = 0
    /\ _zip (this w) = new_ZipFile enc
    /\ t = if forallb declares_size ds
           then map plan_event (map entry_of ds) ++ [PlanEnd]
           else [].
Proof.
  intros H.
  destruct (constructor_spec enc files w t H)
    as (ds & -> & _ & Hs & Hth & _ & Hcase).
  exists ds. rewrite Hth. simpl.
  repeat (split; [ reflexivity || assumption | ]).
  destruct (forallb declares_size ds).
  - now destruct Hcase as (_ & _ & ->).
  - now destruct Hcase as (_ & ->).
Qed.

Lemma constructed_instance_is_pristine_witness :
  constructor Stored.encoder Sample.files = (Ok Sample.zip, Sample.planning)
  /\ exists ds,
       Sample.files = JS.Arr ds
       /\ _files (this Sample.zip) = map entry_of ds
       /\ _chunks (this Sample.zip) = []
       /\ _outputs (this Sample.zip) = []
       /\ streams Sample.zip = []
       /\ _currentFileIndex (this Sample.zip) = None
       /\ _nextFileIndex (this Sample.zip) = 0%nat
       /\ _currentSize (this Sample.zip) = 0
       /\ _zip (this Sample.zip) = new_ZipFile Stored.encoder
       /\ Sample.planning
          = if forallb declares_size ds
            then map plan_event (map entry_of ds) ++ [PlanEnd]
            else [].
Proof.
  split; [ reflexivity | ].
  exact (constructed_instance_is_pristine Stored.encoder Sample.files
           Sample.zip Sample.planning eq_refl).
Defined.

(** X2: validation stops at the first descriptor that fails a check: the
    constructor throws that descriptor's error (object, then [path], then
    [filename], then [size]), whatever follows it in the array and without
    any call to the encoder. *)
Theorem validation_stops_at_first_failure (enc : Encoder)
    (pre post : list JS.value) (d : JS.value) :
  forallb well_formed pre = true ->
  well_formed d = false ->
  constructor enc (JS.Arr (pre ++ d :: post))
  = (Throw (Invariant (complaint d)), []).
Proof.
  intros Hpre Hd.
  unfold constructor, validate. simpl. rewrite map_conform_eq.
  rewrite forallb_app. simpl. rewrite Hpre, Hd. simpl.
  replace (first_complaint (pre ++ d :: post)) with (complaint d);
    [ reflexivity | ].
  clear - Hpre Hd.
  induction pre as [ | p pre IH ]; simpl in *.
  - now rewrite Hd.
  - apply andb_true_iff in Hpre as (Hp & Hpre). rewrite Hp. now apply IH.
Qed.

Lemma validation_stops_at_first_failure_witness :
  forallb well_formed [descriptor "a" "a.txt" (JS.Num (JS.Int 5))] = true
  /\ well_formed (JS.Obj [("path", JS.Str "b"); ("size", JS.Num (JS.Int (-3)))])
     = false
  /\ constructor Stored.encoder (JS.Arr More.flawed)
     = (Throw (Invariant Msg.file_filename), []).
Proof.
  split; [ reflexivity | split; [ reflexivity | ] ].
  exact (validation_stops_at_first_failure Stored.encoder
           [descriptor "a" "a.txt" (JS.Num (JS.Int 5))]
           [JS.Obj [("filename", JS.Str "c.txt")]]
           (JS.Obj [("path", JS.Str "b"); ("size", JS.Num (JS.Int (-3)))])
           eq_refl eq_refl).
Defined.

(** The pass, from what the encoder does: it reaches [end] only when the
    encoder took every entry. *)
Lemma calculateZipSize_eq (enc : Encoder) (w : World enc) :
  forall zip,
    dry_run enc (new_ZipFile enc) (_files (this w)) = Some zip ->
    _calculateZipSize enc w
    = let e := end_ enc zip in
      let z := match reported e with
               | Some n => set_size enc (Some n) (this w)
               | None => this w
               end in
      let w' := {| this := z; streams := streams w |} in
      let t := map plan_event (_files (this w)) ++ [PlanEnd] in
      if end_threw e then (Throw EncoderThrew, w', t)
      else if JS.truthy (size z) then (Ok tt, w', t)
      else (Throw (Invariant Msg.calc_failed), w', t).
Proof.
  intros zip H.
  pose proof (plan_entries_dry_run enc (_files (this w)) (new_ZipFile enc) w)
    as P.
  rewrite H in P.
  unfold _calculateZipSize. step_monad. rewrite P.
  destruct w as [z st]. simpl.
  destruct (reported (end_ enc zip)) as [ n | ];
    destruct (end_threw (end_ enc zip)); simpl; rewrite ?app_nil_r;
    try reflexivity.
  - destruct (negb (n =? 0)); reflexivity.
  - destruct (JS.truthy (size z)); reflexivity.
Qed.

(** X3: when every descriptor is well formed and declares its size,
    construction succeeds exactly when the encoder takes every entry
    without throwing and its [end] reports a non-zero size before it
    returns, without throwing; [this.size] is then the reported size. *)
Theorem constructor_succeeds_iff (enc : Encoder) (ds : list JS.value)
    (w : World enc) (t : list Event) :
  forallb well_formed ds = true ->
  forallb declares_size ds = true ->
  constructor enc (JS.Arr ds) = (Ok w, t)
  <-> exists zip n,
        dry_run enc (new_ZipFile enc) (map entry_of ds) = Some zip
        /\ reported (end_ enc zip) = Some n
        /\ n <> 0
        /\ end_threw (end_ enc zip) = false
        /\ w = {| this := set_size enc (Some n)
                            (this (fresh enc (map entry_of ds)));
                  streams := [] |}
        /\ t = map plan_event (map entry_of ds) ++ [PlanEnd].
Proof.
  intros Hwf Hds.
  unfold constructor, validate. simpl. rewrite map_conform_eq, Hwf. simpl.
  rewrite Hds.
  pose proof (plan_entries_dry_run enc (map entry_of ds) (new_ZipFile enc)
                (fresh enc (map entry_of ds))) as P.
  destruct (dry_run enc (new_ZipFile enc) (map entry_of ds)) as [ zip | ] eqn:D.
  - rewrite (calculateZipSize_eq enc (fresh enc (map entry_of ds)) zip D).
    simpl.
    destruct (reported (end_ enc zip)) as [ n | ] eqn:Hr;
      destruct (end_threw (end_ enc zip)) eqn:Hthrew; simpl.
    + split; [ discriminate | ].
      intros (zip' & n' & Hz & _ & _ & Hthrew' & _). congruence.
    + destruct (Z.eqb_spec n 0) as [ -> | Hn ]; simpl.
      * split; [ discriminate | ].
        intros (zip' & n' & Hz & Hr' & Hn' & _). congruence.
      * split.
        -- intros H. injection H as <- <-.
           exists zip, n. repeat split; auto.
        -- intros (zip' & n' & Hz & Hr' & _ & _ & -> & ->).
           assert (zip' = zip) by congruence. subst zip'.
           assert (n' = n) by congruence. subst n'. reflexivity.
    + split; [ discriminate | ].
      intros (zip' & n' & Hz & Hr' & _). congruence.
    + split; [ discriminate | ].
      intros (zip' & n' & Hz & Hr' & _). congruence.
  - unfold _calculateZipSize. step_monad.
    change (_files (this (fresh enc (map entry_of ds))))
      with (map entry_of ds).
    destruct (plan_entries enc (new_ZipFile enc) (map entry_of ds)
                (fresh enc (map entry_of ds))) as [[r w'] t'].
    simpl in P. subst r.
    split; [ discriminate | ].
    intros (zip' & n' & Hz & _). discriminate.
Qed.

Lemma constructor_succeeds_iff_witness :
  forallb well_formed
    [descriptor "a" "a.txt" (JS.Num (JS.Int 5));
     descriptor "b" "b.txt" (JS.Num (JS.Int 3))] = true
  /\ forallb declares_size
       [descriptor "a" "a.txt" (JS.Num (JS.Int 5));
        descriptor "b" "b.txt" (JS.Num (JS.Int 3))] = true
  /\ exists zip n,
       dry_run Stored.encoder (new_ZipFile Stored.encoder) Sample.catalog
       = Some zip
       /\ reported (end_ Stored.encoder zip) = Some n
       /\ n <> 0.
Proof.
  split; [ reflexivity | split; [ reflexivity | ] ].
  destruct (proj1 (constructor_succeeds_iff Stored.encoder
                     [descriptor "a" "a.txt" (JS.Num (JS.Int 5));
                      descriptor "b" "b.txt" (JS.Num (JS.Int 3))]
                     Sample.zip Sample.planning eq_refl eq_refl) eq_refl)
    as (zip & n & H1 & H2 & H3 & _).
  exists zip, n. split; [ exact H1 | split; [ exact H2 | exact H3 ] ].
Defined.

(** X4: when the encoder throws on an entry during the size calculation,
    construction throws with it: the entries before it and that entry were
    handed to the encoder, none after it, and [end] was not called. *)
Theorem constructor_stops_at_refused_entry (enc : Encoder)
    (pre post : list JS.value) (d : JS.value) (zip : ZipFile enc) :
  forallb well_formed (pre ++ d :: post) = true ->
  forallb declares_size (pre ++ d :: post) = true ->
  dry_run enc (new_ZipFile enc) (map entry_of pre) = Some zip ->
  threw (addReadStream enc zip (File.filename (entry_of d))
           (File.size (entry_of d))) = true ->
  constructor enc (JS.Arr (pre ++ d :: post))
  = (Throw EncoderThrew,
     map plan_event (map entry_of pre) ++ [plan_event (entry_of d)]).
Proof.
  intros Hwf Hds Hrun Hthrew.
  unfold constructor, validate. simpl. rewrite map_conform_eq, Hwf. simpl.
  rewrite Hds.
  unfold _calculateZipSize. step_monad.
  change (_files (this (fresh enc (map entry_of (pre ++ d :: post)))))
    with (map entry_of (pre ++ d :: post)).
  rewrite map_app. simpl map.
  rewrite (plan_entries_app enc (map entry_of pre)
             (entry_of d :: map entry_of post) (new_ZipFile enc) zip _ Hrun).
  cbn [plan_entries]. step_monad. rewrite Hthrew.
  cbn [app]. reflexivity.
Qed.

Lemma constructor_stops_at_refused_entry_witness :
  forallb well_formed More.nameless = true
  /\ forallb declares_size More.nameless = true
  /\ constructor Stored.encoder (JS.Arr More.nameless)
     = (Throw EncoderThrew, [PlanEntry "a.txt" (Some 5); PlanEntry "" (Some 3)]).
Proof.
  split; [ reflexivity | split; [ reflexivity | ] ].
  exact (constructor_stops_at_refused_entry Stored.encoder
           [descriptor "a" "a.txt" (JS.Num (JS.Int 5))]
           [descriptor "c" "c.txt" (JS.Num (JS.Int 1))]
           (descriptor "b" "" (JS.Num (JS.Int 3)))
           {| Stored.entries := [("a.txt", Some 5)];
              Stored.outputStreamCursor := 35;
              Stored.pumping := true |}
           eq_refl eq_refl eq_refl eq_refl).
Defined.

(** X5: when the encoder takes every entry but its [end] returns without
    having reported a size, or reports 0, construction fails on the
    assertion that the size was calculated, after the whole pass. *)
Theorem constructor_needs_reported_size (enc : Encoder) (ds : list JS.value)
    (zip : ZipFile enc) :
  forallb well_formed ds = true ->
  forallb declares_size ds = true ->
  dry_run enc (new_ZipFile enc) (map entry_of ds) = Some zip ->
  end_threw (end_ enc zip) = false ->
  reported (end_ enc zip) = None \/ reported (end_ enc zip) = Some 0 ->
  constructor enc (JS.Arr ds)
  = (Throw (Invariant Msg.calc_failed),
     map plan_event (map entry_of ds) ++ [PlanEnd]).
Proof.
  intros Hwf Hds Hrun Hthrew Hrep.
  unfold constructor, validate. simpl. rewrite map_conform_eq, Hwf. simpl.
  rewrite Hds.
  rewrite (calculateZipSize_eq enc (fresh enc (map entry_of ds)) zip Hrun).
  simpl. rewrite Hthrew.
  destruct Hrep as [ -> | -> ]; reflexivity.
Qed.

Lemma constructor_needs_reported_size_witness :
  forallb well_formed
    [descriptor "a" "a.txt" (JS.Num (JS.Int 5))] = true
  /\ reported (end_ Deferred.encoder
                 {| Stored.entries := [("a.txt", Some 5)];
                    Stored.outputStreamCursor := 35;
                    Stored.pumping := true |}) = None
  /\ constructor Deferred.encoder
       (JS.Arr [descriptor "a" "a.txt" (JS.Num (JS.Int 5))])
     = (Throw (Invariant Msg.calc_failed),
        [PlanEntry "a.txt" (Some 5); PlanEnd]).
Proof.
  split; [ reflexivity | split; [ reflexivity | ] ].
  exact (constructor_needs_reported_size Deferred.encoder
           [descriptor "a" "a.txt" (JS.Num (JS.Int 5))]
           {| Stored.entries := [("a.txt", Some 5)];
              Stored.outputStreamCursor := 35;
              Stored.pumping := true |}
           eq_refl eq_refl eq_refl eq_refl (or_introl eq_refl)).
Defined.

(** ** Instances that cannot serve *)



(** ** What calls keep *)

(** X7: no call changes the catalog or the archive size: after any calls
    the paths, archive names and sizes of the entries, their number and
    order, [this.size] and [_nextFileIndex] are what they were. *)
Theorem calls_keep_catalog_and_size (enc : Encoder) (calls : list Call) :
  forall w : World enc,
    map pristine (_files (this (run enc calls w)))
    = map pristine (_files (this w))
    /\ size (this (run enc calls w)) = size (this w)
    /\ _nextFileIndex (this (run enc calls w)) = _nextFileIndex (this w).
Proof.
  induction calls as [ | c calls IH ]; intros w; simpl.
  - repeat split.
  - destruct (IH (fst (call enc c w))) as (-> & -> & ->).
    destruct (call_spec enc c w) as (Hs & Hf & Hn & _).
    repeat split; assumption.
Qed.

Lemma within_size (sz : option Z) (offset length : JS.value) (s : nat) :
  JS.isPositiveIntegerOrZero offset = true ->
  JS.isPositiveInteger length = true ->
  JS.add (JS.int_of offset) (JS.int_of length) <= JS.number_of sz ->
  within sz {| Output.stream := s;
               Output.offset := JS.int_of offset;
               Output.length := JS.int_of length;
               Output.pos := JS.int_of offset |}.
Proof.
  intros Ho Hl Hb. unfold within. simpl.
  destruct offset as [ | | b | [ o | ] | s' | ps | es ]; try discriminate.
  destruct length as [ | | b | [ l | ] | s' | ps | es ]; try discriminate.
  simpl in *. apply Z.leb_le in Ho. apply Z.ltb_lt in Hl.
  repeat split; assumption.
Qed.

(** X8: in every state an instance can reach, [_outputs] holds one output
    per stream ever created, in the order of the requests and each with its
    own stream; none is ever removed or advanced: every output has a
    non-negative offset, a positive length, [offset + length], as the
    double the code computes, within [this.size], and [pos] still at its
    [offset].  When the archive is below [2 ^ 53] bytes the exact sum is
    within the size. *)
Theorem outputs_are_kept_as_requested (enc : Encoder) (w : World enc)
    (t : list Event) :
  reaches enc w t ->
  map Output.stream (_outputs (this w)) = seq 0 (List.length (streams w))
  /\ Forall (within (size (this w))) (_outputs (this w))
  /\ (JS.number_of (size (this w)) < 2 ^ 53 ->
      Forall (fun o => Output.offset o + Output.length o
                       <= JS.number_of (size (this w)))
        (_outputs (this w))).
Proof.
  intros Hr.
  assert (H : map Output.stream (_outputs (this w))
              = seq 0 (List.length (streams w))
              /\ Forall (within (size (this w))) (_outputs (this w))).
  { induction Hr as [ files w t Hc | c w t Hr (IHs & IHf) ].
    - destruct (constructor_spec enc files w t Hc)
        as (ds & _ & _ & Hs & Hth & _).
      rewrite Hth, Hs. simpl. split; [ reflexivity | constructor ].
    - destruct c as [ stat | offset length ]; simpl.
      + rewrite init_eq.
        destruct (JS.truthy (size (this w))); simpl; split; assumption.
      + destruct (rejection enc (this w) offset length) as [ m | ] eqn:R.
        * rewrite (getStream_rejected enc offset length w m R). simpl.
          split; assumption.
        * pose proof (getStream_registers enc offset length w R) as G.
          pose proof (call_spec enc (GetStream offset length) w) as C.
          simpl in C.
          destruct (getStream enc offset length w) as [[r w'] t'].
          simpl in *. destruct G as (Hst & Hou & _).
          destruct C as (Hsz & _).
          rewrite Hst, Hou, Hsz. split.
          -- rewrite map_app, length_app, seq_app, IHs. simpl.
             reflexivity.
          -- apply Forall_app. split; [ exact IHf | ].
             constructor; [ | constructor ].
             apply rejection_none in R as (_ & Ho & Hl & Hb).
             now apply within_size. }
  destruct H as (Hs & Hf).
  split; [ exact Hs | split; [ exact Hf | ] ].
  intros Hsmall. eapply Forall_impl; [ | exact Hf ].
  intros o (Ho & Hl & Hb & _).
  now apply add_within_exact in Hb.
Qed.

Lemma outputs_are_kept_as_requested_witness :
  reaches Stored.encoder More.serving (Sample.planning ++ [StartEntry 0])
  /\ map Output.stream (_outputs (this More.serving))
     = seq 0 (List.length (streams More.serving))
  /\ Forall (within (size (this More.serving))) (_outputs (this More.serving))
  /\ (JS.number_of (size (this More.serving)) < 2 ^ 53 ->
      Forall (fun o => Output.offset o + Output.length o
                       <= JS.number_of (size (this More.serving)))
        (_outputs (this More.serving))).
Proof.
  assert (H : reaches Stored.encoder More.serving
                (Sample.planning ++ [StartEntry 0])).
  { exact (reaches_call Stored.encoder
             (GetStream (JS.Num (JS.Int 0)) (JS.Num (JS.Int 1)))
             Sample.zip Sample.planning
             (reaches_new Stored.encoder Sample.files Sample.zip
                Sample.planning eq_refl)). }
  split; [ exact H | ].
  exact (outputs_are_kept_as_requested Stored.encoder More.serving
           (Sample.planning ++ [StartEntry 0]) H).
Defined.

(** ** The producer *)

Lemma startNextFile_trace (enc : Encoder) (w : World enc) (file : File.t) :
  nth_error (_files (this w)) (_nextFileIndex (this w)) = Some file ->
  snd (_startNextFile enc w) = [StartEntry (_nextFileIndex (this w))].
Proof.
  intros Hfile. unfold _startNextFile. step_monad.
  destruct w as [z st]. destruct z as [sz ch zp ou cf nf cs fs].
  simpl in *. rewrite Hfile. simpl.
  destruct (threw _); simpl; [ reflexivity | ].
  destruct (Nat.eqb _ _); simpl; [ | reflexivity ].
  destruct (truthy_object _ && truthy_object _)%bool; simpl; [ | reflexivity ].
  destruct (nth_error _ (List.length ch)); reflexivity.
Qed.

Lemma startNextFile_missing (enc : Encoder) (w : World enc) :
  nth_error (_files (this w)) (_nextFileIndex (this w)) = None ->
  _startNextFile enc w = (Throw TypeError, marked enc w, []).
Proof.
  intros Hfile. unfold _startNextFile, marked. step_monad.
  destruct w as [z st]. destruct z as [sz ch zp ou cf nf cs fs].
  simpl in *. now rewrite Hfile.
Qed.

Lemma rejection_is_precondition (enc : Encoder) (z : Zip enc)
    (offset length : JS.value) (m : string) :
  rejection enc z offset length = Some m ->
  (NotPlannedError (Invariant m) || InvalidRangeError (Invariant m))%bool
  = true.
Proof.
  unfold rejection.
  destruct (JS.truthy (size z)); simpl; [ | now intros [= <-] ].
  destruct (JS.isPositiveIntegerOrZero offset); simpl; [ | now intros [= <-] ].
  destruct (JS.isPositiveInteger length); simpl; [ | now intros [= <-] ].
  destruct (_ <=? _); simpl; [ discriminate | now intros [= <-] ].
Qed.

(** X9: on an instance as construction returned it, with at least one
    entry, the first request that passes the checks hands entry 0 to the
    encoder and marks it current, wherever in the archive the request
    points (be it at its very end). *)
Theorem first_request_starts_first_entry (enc : Encoder) (files : JS.value)
    (w : World enc) (t : list Event) (offset length : JS.value)
    (file : File.t) :
  constructor enc files = (Ok w, t) ->
  rejection enc (this w) offset length = None ->
  nth_error (_files (this w)) 0 = Some file ->
  snd (getStream enc offset length w) = [StartEntry 0]
  /\ _currentFileIndex (this (snd (fst (getStream enc offset length w))))
     = Some 0%nat.
Proof.
  intros Hc R Hfile.
  destruct (constructor_spec enc files w t Hc) as (ds & _ & _ & _ & Hth & _).
  assert (Hcur : _currentFileIndex (this w) = None) by now rewrite Hth.
  assert (Hnext : _nextFileIndex (this w) = 0%nat) by now rewrite Hth.
  assert (Hsize : _currentSize (this w) = 0) by now rewrite Hth.
  pose proof R as R'. apply rejection_none in R' as (_ & Ho & _).
  rewrite getStream_eq, R. simpl. rewrite Hsize, Hcur.
  assert (Hlt : (JS.int_of offset <? 0) = false).
  { destruct offset as [ | | b | [ o | ] | s' | ps | es ]; try discriminate.
    simpl in *. apply Z.leb_le in Ho. apply Z.ltb_ge. exact Ho. }
  rewrite Hlt.
  pose proof (startNextFile_trace enc (registered enc w offset length) file)
    as T.
  pose proof (startNextFile_spec enc (registered enc w offset length)) as S.
  simpl in T, S. rewrite Hnext in T, S. specialize (T Hfile).
  destruct (_startNextFile enc (registered enc w offset length))
    as [[[[] | e] w2] t2]; simpl in *;
    destruct S as (_ & _ & _ & _ & Hcur' & _); split; assumption.
Qed.

Lemma first_request_starts_first_entry_witness :
  constructor Stored.encoder Sample.files = (Ok Sample.zip, Sample.planning)
  /\ rejection Stored.encoder (this Sample.zip)
       (JS.Num (JS.Int 230)) (JS.Num (JS.Int 4)) = None
  /\ snd (getStream Stored.encoder (JS.Num (JS.Int 230)) (JS.Num (JS.Int 4))
            Sample.zip) = [StartEntry 0]
  /\ _currentFileIndex
       (this (snd (fst (getStream Stored.encoder (JS.Num (JS.Int 230))
                          (JS.Num (JS.Int 4)) Sample.zip)))) = Some 0%nat.
Proof.
  split; [ reflexivity | split; [ reflexivity | ] ].
  exact (first_request_starts_first_entry Stored.encoder Sample.files
           Sample.zip Sample.planning (JS.Num (JS.Int 230)) (JS.Num (JS.Int 4))
           {| File.path := "a"; File.filename := "a.txt"; File.size := Some 5;
              File.crc32Watcher := None; File.compressedSizeCounter := None |}
           eq_refl eq_refl eq_refl).
Defined.

(** X10: when there is no entry at [_nextFileIndex] (an empty catalog), a
    request that passes the checks and wakes the producer throws a
    TypeError without any call to the encoder; its output and stream stay
    behind and the producer is marked as started, so the same request made
    again returns a stream. *)
Theorem request_on_exhausted_catalog (enc : Encoder) (w : World enc)
    (offset length : JS.value) :
  rejection enc (this w) offset length = None ->
  _currentFileIndex (this w) = None ->
  _currentSize (this w) <= JS.int_of offset ->
  nth_error (_files (this w)) (_nextFileIndex (this w)) = None ->
  let w1 := marked enc (registered enc w offset length) in
  getStream enc offset length w = (Throw TypeError, w1, [])
  /\ getStream enc offset length w1
     = (Ok (S (List.length (streams w))), registered enc w1 offset length, []).
Proof.
  intros R Hcur Hsize Hfile. simpl.
  apply Z.ltb_ge in Hsize.
  split.
  - rewrite getStream_eq, R. simpl. rewrite Hsize, Hcur.
    rewrite (startNextFile_missing enc (registered enc w offset length));
      [ reflexivity | exact Hfile ].
  - rewrite getStream_eq.
    change (rejection enc (this (marked enc (registered enc w offset length)))
              offset length)
      with (rejection enc (this w) offset length).
    rewrite R. simpl. rewrite Hsize.
    rewrite length_app. simpl. now rewrite Nat.add_1_r.
Qed.

Lemma request_on_exhausted_catalog_witness :
  rejection Stored.encoder (this More.hollow)
    (JS.Num (JS.Int 0)) (JS.Num (JS.Int 22)) = None
  /\ nth_error (_files (this More.hollow)) (_nextFileIndex (this More.hollow))
     = None
  /\ fst (fst (getStream Stored.encoder (JS.Num (JS.Int 0))
                 (JS.Num (JS.Int 22)) More.hollow)) = Throw TypeError.
Proof.
  split; [ reflexivity | split; [ reflexivity | ] ].
  exact (f_equal (fun r => fst (fst r))
           (proj1 (request_on_exhausted_catalog Stored.encoder More.hollow
                     (JS.Num (JS.Int 0)) (JS.Num (JS.Int 22))
                     eq_refl eq_refl (Z.le_refl 0) eq_refl))).
Defined.

(** X11: when the encoder answers [addReadStream] on the current entry with
    one written buffer and at least four piped streams, [_startNextFile]
    records the buffer as the one new chunk, at the encoder's cursor and
    with no file; keeps the first piped stream as the entry's
    [crc32Watcher] and the fourth, its [byteCount] set to the entry's size,
    as its [compressedSizeCounter]; and sets [_currentSize] to the end of
    the entry's data: cursor, plus header length, plus size, each sum the
    double the code computes (the exact sum below [2 ^ 53]). *)
Theorem startNextFile_places_entry (enc : Encoder) (w : World enc)
    (file : File.t) (zip' : ZipFile enc) (cursor : Z) (header : list byte)
    (s0 s1 s2 s3 : Stream) (rest : list Stream) :
  nth_error (_files (this w)) (_nextFileIndex (this w)) = Some file ->
  addReadStream enc (_zip (this w)) (File.filename file) (File.size file)
  = {| after := zip'; writes := [(cursor, header)];
       pipes := s0 :: s1 :: s2 :: s3 :: rest; threw := false |} ->
  _startNextFile enc w
  = (Ok tt,
     {| this :=
          {| size := size (this w);
             _chunks := _chunks (this w)
                        ++ [ {| Chunk.buff := header; Chunk.file := None;
                                Chunk.offset := cursor |} ];
             _zip := zip';
             _outputs := _outputs (this w);
             _currentFileIndex := Some (_nextFileIndex (this w));
             _nextFileIndex := _nextFileIndex (this w);
             _currentSize := JS.add (JS.add cursor
                                               (Z.of_nat (List.length header)))
                               (JS.number_of (File.size file));
             _files :=
               replace_nth (_nextFileIndex (this w))
                 {| File.path := File.path file;
                    File.filename := File.filename file;
                    File.size := File.size file;
                    File.crc32Watcher := Some s0;
                    File.compressedSizeCounter :=
                      Some {| byteCount := File.size file |} |}
                 (_files (this w)) |};
        streams := streams w |},
     [StartEntry (_nextFileIndex (this w))])
  /\ (0 <= cursor ->
      0 <= JS.number_of (File.size file) ->
      cursor + Z.of_nat (List.length header) + JS.number_of (File.size file)
      < 2 ^ 53 ->
      JS.add (JS.add cursor (Z.of_nat (List.length header)))
        (JS.number_of (File.size file))
      = cursor + Z.of_nat (List.length header)
        + JS.number_of (File.size file)).
Proof.
  intros Hfile Hem. split.
  - unfold _startNextFile. step_monad.
    destruct w as [z st]. destruct z as [sz ch zp ou cf nf cs fs].
    simpl in *. rewrite Hfile. simpl. rewrite Hem. simpl.
    rewrite pipe_chain_late by lia.
    rewrite length_app. simpl. rewrite Nat.eqb_refl. simpl.
    rewrite nth_error_app2 by lia. rewrite Nat.sub_diag. simpl.
    reflexivity.
  - intros Hc Hsz Hsmall. unfold JS.add.
    rewrite (round53_small (cursor + Z.of_nat (List.length header)))
      by (rewrite Z.abs_eq; lia).
    apply round53_small. rewrite Z.abs_eq; lia.
Qed.

Lemma startNextFile_places_entry_witness :
  nth_error (_files (this Sample.zip)) (_nextFileIndex (this Sample.zip))
  = Some {| File.path := "a"; File.filename := "a.txt"; File.size := Some 5;
            File.crc32Watcher := None; File.compressedSizeCounter := None |}
  /\ _currentSize (this (snd (fst (_startNextFile Stored.encoder Sample.zip))))
     = 0 + 35 + 5.
Proof.
  split; [ reflexivity | ].
  exact (f_equal (fun r => _currentSize (this (snd (fst r))))
           (proj1
              (startNextFile_places_entry Stored.encoder Sample.zip
                 {| File.path := "a"; File.filename := "a.txt";
                    File.size := Some 5; File.crc32Watcher := None;
                    File.compressedSizeCounter := None |}
                 {| Stored.entries := [("a.txt", Some 5)];
                    Stored.outputStreamCursor := 35;
                    Stored.pumping := true |}
                 0 (Stored.localFileHeader "a.txt")
                 {| byteCount := None |} {| byteCount := None |}
                 {| byteCount := None |} {| byteCount := None |}
                 [ {| byteCount := None |} ] eq_refl eq_refl))).
Defined.

(** From [2 ^ 53] on the sums are rounded: on the archive of one entry of
    [2 ^ 54] bytes behind a header of 37 bytes, [_currentSize] is the
    double next to [2 ^ 54 + 37]. *)
Example currentSize_of_huge_entry :
  _currentSize
    (this (snd (fst (getStream Stored.encoder (JS.Num (JS.Int 0))
                       (JS.Num (JS.Int 1)) More.huge))))
  = 2 ^ 54 + 36
  /\ 2 ^ 54 + 36 = 18014398509482020.
Proof. split; vm_compute; reflexivity. Qed.

(** An array among the descriptors is no object for the constructor. *)
Example array_descriptor_rejected :
  constructor Stored.encoder
    (JS.Arr [descriptor "a" "a.txt" (JS.Num (JS.Int 5)); JS.Arr []])
  = (Throw (Invariant Msg.file_object), []).
Proof. reflexivity. Qed.

Lemma pipe_chain_short (piped : list Stream) (file : File.t) :
  (List.length piped < 4)%nat ->
  File.compressedSizeCounter (pipe_chain 0 piped file)
  = File.compressedSizeCounter file.
Proof.
  destruct piped as [ | s0 [ | s1 [ | s2 [ | s3 rest ] ] ] ]; simpl;
    try reflexivity.
  lia.
Qed.

(** X12: when the encoder writes its one buffer but pipes the read stream
    through fewer than four streams, an entry that has no
    [compressedSizeCounter] yet gets none, and [_startNextFile] fails on the
    assertion that the streams were captured; [_currentSize] stays as it
    was. *)
Theorem startNextFile_requires_streams (enc : Encoder) (w : World enc)
    (file : File.t) :
  nth_error (_files (this w)) (_nextFileIndex (this w)) = Some file ->
  File.compressedSizeCounter file = None ->
  threw (addReadStream enc (_zip (this w)) (File.filename file)
           (File.size file)) = false ->
  List.length (writes (addReadStream enc (_zip (this w)) (File.filename file)
                         (File.size file))) = 1%nat ->
  (List.length (pipes (addReadStream enc (_zip (this w)) (File.filename file)
                         (File.size file))) < 4)%nat ->
  exists w',
    _startNextFile enc w
    = (Throw (Invariant Msg.no_streams), w',
       [StartEntry (_nextFileIndex (this w))])
    /\ _currentSize (this w') = _currentSize (this w).
Proof.
  intros Hfile Hnone Hthrew Hone Hpipes.
  unfold _startNextFile. step_monad.
  destruct w as [z st]. destruct z as [sz ch zp ou cf nf cs fs].
  simpl in *. rewrite Hfile. simpl. rewrite Hthrew. simpl.
  rewrite length_app, length_map, Hone, Nat.eqb_refl. simpl.
  rewrite (pipe_chain_short _ file Hpipes), Hnone.
  rewrite andb_false_r. simpl. eexists. split; reflexivity.
Qed.

Lemma startNextFile_requires_streams_witness :
  pipes (addReadStream Unpiped.encoder (_zip (this More.unpiped))
           "a.txt" (Some 5)) = []
  /\ exists w',
       _startNextFile Unpiped.encoder More.unpiped
       = (Throw (Invariant Msg.no_streams), w', [StartEntry 0])
       /\ _currentSize (this w') = _currentSize (this More.unpiped).
Proof.
  split; [ reflexivity | ].
  apply (startNextFile_requires_streams Unpiped.encoder More.unpiped
           {| File.path := "a"; File.filename := "a.txt"; File.size := Some 5;
              File.crc32Watcher := None;
              File.compressedSizeCounter := None |});
    [ reflexivity | reflexivity | reflexivity | reflexivity | ].
  simpl. lia.
Defined.

Lemma started_call_keeps_producer (enc : Encoder) (c : Call) (w : World enc) :
  _currentFileIndex (this w) <> None ->
  let w' := fst (call enc c w) in
  _currentFileIndex (this w') = _currentFileIndex (this w)
  /\ _currentSize (this w') = _currentSize (this w)
  /\ _chunks (this w') = _chunks (this w)
  /\ _zip (this w') = _zip (this w)
  /\ _files (this w') = _files (this w)
  /\ snd (call enc c w) = [].
Proof.
  intros Hcur. destruct c as [ stat | offset length ]; simpl.
  - rewrite init_eq.
    destruct (JS.truthy (size (this w))); simpl; repeat split; reflexivity.
  - rewrite getStream_eq.
    destruct (rejection enc (this w) offset length);
      [ simpl; repeat split; reflexivity | ].
    simpl. destruct (JS.int_of offset <? _currentSize (this w));
      [ simpl; repeat split; reflexivity | ].
    destruct (_currentFileIndex (this w)) eqn:E;
      [ simpl; rewrite ?E; repeat split; auto | contradiction ].
Qed.

(** X13: once the producer is marked as started it never moves again: no
    later call changes [_currentFileIndex], [_currentSize], the chunks, the
    producer's encoder or the file objects, so the entries after the first
    are never handed to the encoder. *)
Theorem started_producer_never_advances (enc : Encoder) (calls : list Call) :
  forall w : World enc,
    _currentFileIndex (this w) <> None ->
    _currentFileIndex (this (run enc calls w)) = _currentFileIndex (this w)
    /\ _currentSize (this (run enc calls w)) = _currentSize (this w)
    /\ _chunks (this (run enc calls w)) = _chunks (this w)
    /\ _zip (this (run enc calls w)) = _zip (this w)
    /\ _files (this (run enc calls w)) = _files (this w).
Proof.
  induction calls as [ | c calls IH ]; intros w Hcur; simpl.
  - repeat split.
  - destruct (started_call_keeps_producer enc c w Hcur)
      as (H1 & H2 & H3 & H4 & H5 & _).
    assert (Hcur' : _currentFileIndex (this (fst (call enc c w))) <> None)
      by now rewrite H1.
    destruct (IH _ Hcur') as (-> & -> & -> & -> & ->).
    repeat split; assumption.
Qed.

Lemma started_producer_never_advances_witness :
  _currentFileIndex (this More.serving) <> None
  /\ _currentSize
       (this (run Stored.encoder
                [GetStream (JS.Num (JS.Int 100)) (JS.Num (JS.Int 134));
                 GetStream (JS.Num (JS.Int 40)) (JS.Num (JS.Int 1))]
                More.serving))
     = _currentSize (this More.serving).
Proof.
  assert (H : _currentFileIndex (this More.serving) <> None)
    by (simpl; discriminate).
  split; [ exact H | ].
  exact (proj1 (proj2 (started_producer_never_advances Stored.encoder
                         [GetStream (JS.Num (JS.Int 100)) (JS.Num (JS.Int 134));
                          GetStream (JS.Num (JS.Int 40)) (JS.Num (JS.Int 1))]
                         More.serving H))).
Defined.

(** X14: a call of [getStream] that throws after its checks (out of the
    producer) has woken the producer and leaves its traces: the stream it
    created and its output stay in the store and in [_outputs], and the
    producer is marked as started, so no later call tries again. *)
Theorem failure_after_checks_keeps_request (enc : Encoder)
    (offset length : JS.value) (w w' : World enc) (e : error)
    (t : list Event) :
  getStream enc offset length w = (Throw e, w', t) ->
  (NotPlannedError e || InvalidRangeError e)%bool = false ->
  _currentFileIndex (this w) = None
  /\ _currentFileIndex (this w') = Some (_nextFileIndex (this w))
  /\ streams w' = streams w ++ [ {| written := [] |} ]
  /\ _outputs (this w') = _outputs (this w) ++ [output_for enc w offset length].
Proof.
  rewrite getStream_eq.
  destruct (rejection enc (this w) offset length) as [ m | ] eqn:R.
  { intros H He. injection H as <- _ _.
    rewrite (rejection_is_precondition enc _ _ _ _ R) in He. discriminate. }
  simpl.
  destruct (JS.int_of offset <? _currentSize (this w)); [ discriminate | ].
  destruct (_currentFileIndex (this w)); [ discriminate | ].
  pose proof (startNextFile_spec enc (registered enc w offset length)) as S.
  destruct (_startNextFile enc (registered enc w offset length))
    as [[[[] | e'] w2] t2]; [ discriminate | ].
  intros H _. injection H as _ <- _.
  destruct S as (Hst & _ & Hou & _ & Hcur & _).
  repeat split; assumption.
Qed.

Lemma failure_after_checks_keeps_request_witness :
  fst (fst (getStream Stored.encoder (JS.Num (JS.Int 0)) (JS.Num (JS.Int 1))
              Sample.stalled)) = Throw (Invariant Msg.no_header)
  /\ _currentFileIndex
       (this (snd (fst (getStream Stored.encoder (JS.Num (JS.Int 0))
                          (JS.Num (JS.Int 1)) Sample.stalled))))
     = Some 0%nat.
Proof.
  split; [ reflexivity | ].
  exact (proj1 (proj2
           (failure_after_checks_keeps_request Stored.encoder
              (JS.Num (JS.Int 0)) (JS.Num (JS.Int 1)) Sample.stalled
              (snd (fst (getStream Stored.encoder (JS.Num (JS.Int 0))
                           (JS.Num (JS.Int 1)) Sample.stalled)))
              (Invariant Msg.no_header) [StartEntry 0] eq_refl eq_refl))).
Defined.
